(** * Redis key migration (migrate.py): model and verified properties

    The script copies every key of a source Redis instance to a target
    instance.  Keys larger than [size_limit] are not copied: they are
    collected in [large_keys] and written to a manifest file by
    [process_large_keys], which runs in a thread of its own once the scan
    loop is over.

    The two Redis servers and the redis-py client are outside the script.
    They appear here as follows.
    - The source server is a record of replies ([source]): every command the
      script sends to it either returns a value or raises.  The source is
      read-only for the script, and it is taken as unchanged during a run.
    - The target server is a finite map from key names to (payload, ttl).
      [RESTORE] overwrites an existing key only when [REPLACE] is given.
      The target is taken to be reachable for as long as the run lasts.
    - A redis-py pipeline queues commands; [execute] sends them together
      as one transaction ([MULTI] ... [EXEC]).  A command the server refuses
      already when it is queued makes [EXEC] discard the whole transaction;
      a command that fails when it runs leaves the others in place.  Either
      way the first error reply is raised once all replies are read
      (the default [raise_on_error=True]).
    - The manifest file is a list of lines; [open] may fail ([environment]).
    - Python integers are unbounded: [Z].  Byte strings are [string]
      (a sequence of 8-bit characters). *)

From Stdlib Require Import ZArith Ascii String DecimalString.
From stdpp Require Import gmap strings list.

Local Open Scope Z_scope.

(** ** Exceptions and fallible calls *)

(** The exception classes the script tells apart.  [AuthenticationError] is
    a subclass of [RedisError] in redis-py; [RedisError] below stands for
    every other redis-py error (response, connection, timeout, data). *)
Inductive exn : Type :=
| AuthenticationError (m : string)
| RedisError (m : string)
| UnicodeDecodeError
| OtherError (m : string).

Inductive result (A : Type) : Type :=
| Ok (a : A)
| Raise (e : exn).
Arguments Ok {A} a.
Arguments Raise {A} e.

(** Sequencing of fallible calls: the first exception raised wins.  With
    these instances [x ← r; k] reads as in the script's [try] blocks. *)
#[global] Instance result_ret : MRet result := λ A a, Ok a.
#[global] Instance result_bind : MBind result := λ A B k r,
  match r with
  | Ok a => k a
  | Raise e => Raise e
  end.

#[global] Instance exn_eq_dec : EqDecision exn.
Proof. solve_decision. Defined.

(** ** Byte strings and [bytes.decode()] *)

Definition bytes_of (s : string) : list N :=
  (λ a, N_of_ascii a) <$> list_ascii_of_string s.

Definition is_cont (b : N) : bool := ((128 <=? b) && (b <=? 191))%N.
Definition in_range (lo hi b : N) : bool := ((lo <=? b) && (b <=? hi))%N.

(** Well-formed UTF-8, as the strict decoder accepts it: shortest form only,
    no surrogates, nothing above U+10FFFF. *)
Fixpoint utf8_valid (bs : list N) : bool :=
  match bs with
  | [] => true
  | b0 :: r0 =>
    if (b0 <? 128)%N then utf8_valid r0
    else if in_range 194 223 b0 then
      match r0 with
      | b1 :: r1 => is_cont b1 && utf8_valid r1
      | _ => false
      end
    else if in_range 224 239 b0 then
      match r0 with
      | b1 :: b2 :: r2 =>
        (if (b0 =? 224)%N then in_range 160 191 b1
         else if (b0 =? 237)%N then in_range 128 159 b1
         else is_cont b1)
        && is_cont b2 && utf8_valid r2
      | _ => false
      end
    else if in_range 240 244 b0 then
      match r0 with
      | b1 :: b2 :: b3 :: r3 =>
        (if (b0 =? 240)%N then in_range 144 191 b1
         else if (b0 =? 244)%N then in_range 128 143 b1
         else is_cont b1)
        && is_cont b2 && is_cont b3 && utf8_valid r3
      | _ => false
      end
    else false
  end.

(** [key.decode()]: a text is identified with its UTF-8 encoding, so a
    successful decode returns the same bytes. *)
Definition decode (b : string) : result string :=
  if utf8_valid (bytes_of b) then Ok b else Raise UnicodeDecodeError.

(** ** Data *)

(** An entry of [large_keys]: the dict [{"name": key, "size": key_size}]. *)
Record large_key : Type := LargeKey { lk_name : string; lk_size : Z }.

(** A queued [RESTORE name ttl value [REPLACE]].  [dump] returns [None] for
    a key that does not exist, hence the optional payload. *)
Record restore_cmd : Type := RestoreCmd {
  rc_name : string;
  rc_ttl : Z;
  rc_value : option string;
  rc_replace : bool
}.

(** A line of the manifest file:
    [Key: <name>, Type: <type>, TTL: <ttl>, Size: <size> bytes]. *)
Record manifest_line : Type := ManifestLine {
  ml_key : string;
  ml_type : string;
  ml_ttl : Z;
  ml_size : Z
}.

#[global] Instance large_key_eq_dec : EqDecision large_key.
Proof. solve_decision. Defined.
#[global] Instance restore_cmd_eq_dec : EqDecision restore_cmd.
Proof. solve_decision. Defined.
#[global] Instance manifest_line_eq_dec : EqDecision manifest_line.
Proof. solve_decision. Defined.

(** The lines the script prints, one constructor per [print] statement. *)
Inductive msg : Type :=
| MsgConnectedSource (host : string) (port : Z)
| MsgConnectedTarget (host : string) (port : Z)
| MsgFound (total_keys : Z)
| MsgErrorMigrating (name : string) (e : exn)
| MsgCompleted
| MsgAuthError
| MsgRedisError (e : exn)
| MsgError (e : exn)
| MsgProcessing
| MsgCaptured (key : string) (size : Z) (data_type : string)
| MsgErrorLarge (key : string) (e : exn)
| MsgLargeComplete (file : string).

(** What a run does to the outside world, in order.  [EvRestore c reply] is
    a [RESTORE] the target answered, with [None] for [OK]; [EvDiscarded c]
    is a [RESTORE] the target queued and then discarded with its
    transaction; [EvUncaught e] is the traceback of an exception that
    nothing catches, on the standard error stream. *)
Inductive event : Type :=
| EvPrint (m : msg)
| EvScan (cursor count next : Z) (keys : list string)
| EvRestore (c : restore_cmd) (reply : option exn)
| EvWrite (l : manifest_line)
| EvStart
| EvJoin
| EvDiscarded (c : restore_cmd)
| EvUncaught (e : exn).

#[global] Instance msg_eq_dec : EqDecision msg.
Proof. solve_decision. Defined.
#[global] Instance event_eq_dec : EqDecision event.
Proof. solve_decision. Defined.

(** The source server, as the replies to the commands the script sends. *)
Record source : Type := Source {
  src_dbsize : result Z;
  src_scan : Z → Z → result (Z * list string);
  src_memory_usage : string → result (option Z);
  src_dump : string → result (option string);
  src_ttl : string → result Z;
  src_type : string → result string
}.

(** The arguments of [migrate_redis_keys]. *)
Record config : Type := Config {
  source_host : string;
  source_port : Z;
  source_password : string;
  source_db : Z;
  target_host : string;
  target_port : Z;
  target_password : string;
  target_db : Z;
  batch_size : Z;
  size_limit : Z;
  large_key_file : string
}.

(** What the run meets besides the replies of the source.
    - [open_error path]: the exception of [open(path, "w")], if it fails.
    - [queue_time c]: a refusal of [c] by the target comes already when [c]
      is queued inside [MULTI] (no permission, out of memory, read-only
      replica); otherwise it comes when [c] runs inside [EXEC] (bad payload,
      invalid ttl).
    - [pipeline_error number c e]: the exception redis-py raises for the
      command [c], the [number]-th of its pipeline, that the server refused
      with [e]; it is [e] with the message rewritten to
      [Command # <number> (<command>) of pipeline caused error: <message>]. *)
Record environment : Type := Environment {
  open_error : string → option exn;
  queue_time : restore_cmd → bool;
  pipeline_error : nat → restore_cmd → exn → exn
}.

(** ** The target server and the pipeline *)

Abbreviation store := (gmap string (string * Z)).

Definition busy_key : exn :=
  RedisError "BUSYKEY Target key name already exists.".
Definition data_error : exn :=
  RedisError "Invalid input of type: 'NoneType'. Convert to a bytes, string, int or float first.".

(** One [RESTORE] on the server.  [rejects] is the server's verdict on the
    command itself (bad payload, invalid ttl, no permission).  Without
    [REPLACE] an existing key is an error; with it the key is overwritten. *)
Definition restore (rejects : restore_cmd → option exn)
    (c : restore_cmd) (tgt : store) : result store :=
  match rejects c with
  | Some e => Raise e
  | None =>
    match rc_value c with
    | None => Raise data_error
    | Some v =>
      if negb (rc_replace c) && bool_decide (is_Some (tgt !! rc_name c))
      then Raise busy_key
      else Ok (<[rc_name c := (v, rc_ttl c)]> tgt)
    end
  end.

(** [EXEC]: the commands of a transaction run one after the other; a command
    that fails when it runs does not undo or stop the others. *)
Fixpoint run_commands (rejects : restore_cmd → option exn)
    (pipe : list restore_cmd) (tgt : store) : store * list event :=
  match pipe with
  | [] => (tgt, [])
  | c :: cs =>
    match restore rejects c tgt with
    | Ok tgt' =>
      let '(t, evs) := run_commands rejects cs tgt' in (t, EvRestore c None :: evs)
    | Raise e =>
      let '(t, evs) := run_commands rejects cs tgt in (t, EvRestore c (Some e) :: evs)
    end
  end.

(** The first error reply among the replies to the commands of a
    transaction, with the command and its number (from [number] on). *)
Fixpoint first_refused (number : nat) (evs : list event)
    : option (nat * restore_cmd * exn) :=
  match evs with
  | [] => None
  | EvRestore c (Some e) :: _ => Some (number, c, e)
  | EvRestore _ None :: evs' | EvDiscarded _ :: evs' =>
    first_refused (S number) evs'
  | _ :: evs' => first_refused number evs'
  end.

(** [raise_first_error]: the first error reply, annotated by redis-py. *)
Definition raised (env : environment) (evs : list event) : option exn :=
  match first_refused 1 evs with
  | Some (number, c, e) => Some (pipeline_error env number c e)
  | None => None
  end.

Definition has_value (c : restore_cmd) : bool :=
  match rc_value c with Some _ => true | None => false end.

(** The server refuses [c] when it is queued. *)
Definition refused_at_queue (rejects : restore_cmd → option exn)
    (env : environment) (c : restore_cmd) : bool :=
  match rejects c with
  | Some _ => queue_time env c
  | None => false
  end.

(** The replies to a transaction one of whose commands was refused when it
    was queued: that command got its error reply, the others were queued,
    and [EXEC] discards them all. *)
Definition aborted (rejects : restore_cmd → option exn) (env : environment)
    (pipe : list restore_cmd) : list event :=
  (λ c, if refused_at_queue rejects env c then EvRestore c (rejects c)
        else EvDiscarded c) <$> pipe.

(** [pipe.execute()]: the queued commands are encoded first (a [None]
    argument raises before anything is sent), then sent together as one
    transaction.  When a command was refused at queue time the transaction is
    discarded and nothing is written; otherwise the commands run.  The first
    error reply is raised after all replies are read. *)
Definition execute (rejects : restore_cmd → option exn) (env : environment)
    (pipe : list restore_cmd) (tgt : store) : store * list event * option exn :=
  if forallb has_value pipe then
    let '(t, evs) :=
      if existsb (refused_at_queue rejects env) pipe
      then (tgt, aborted rejects env pipe)
      else run_commands rejects pipe tgt in
    (t, evs, raised env evs)
  else (tgt, [], Some data_error).

(** ** Program state *)

Record mstate : Type := MState {
  cursor : Z;
  large_keys : list large_key;
  target : store;
  pbar : nat;
  trace : list event
}.

Definition emit (ev : event) (st : mstate) : mstate :=
  MState (cursor st) (large_keys st) (target st) (pbar st) (trace st ++ [ev]).

Definition emits (evs : list event) (st : mstate) : mstate :=
  MState (cursor st) (large_keys st) (target st) (pbar st) (trace st ++ evs).

Definition print (m : msg) (st : mstate) : mstate := emit (EvPrint m) st.

Definition append_large (lk : large_key) (st : mstate) : mstate :=
  MState (cursor st) (large_keys st ++ [lk]) (target st) (pbar st) (trace st).

Definition set_cursor (c : Z) (st : mstate) : mstate :=
  MState c (large_keys st) (target st) (pbar st) (trace st).

Definition set_target (t : store) (st : mstate) : mstate :=
  MState (cursor st) (large_keys st) t (pbar st) (trace st).

Definition pbar_update (n : nat) (st : mstate) : mstate :=
  MState (cursor st) (large_keys st) (target st) (pbar st + n)%nat (trace st).

(** [x or 0] on the reply of [memory_usage]: [None] and [0] are falsy. *)
Definition or_zero (x : option Z) : Z :=
  match x with
  | Some n => if n =? 0 then 0 else n
  | None => 0
  end.

(** [ttl = 0 if ttl == -1 else ttl * 1000] *)
Definition normalize_ttl (ttl : Z) : Z :=
  if ttl =? -1 then 0 else ttl * 1000.

(** [pipe.restore(name=.., ttl=.., value=.., replace=..)] only queues. *)
Definition pipe_restore (pipe : list restore_cmd)
    (name : string) (ttl : Z) (value : option string) (replace : bool)
    : list restore_cmd :=
  pipe ++ [RestoreCmd name ttl value replace].

(** ** Control flow *)

(** The state of the thread: the manifest written so far and what the
    thread has done, in order. *)
Record pstate : Type := PState {
  file : list manifest_line;
  pevents : list event
}.

(** How control leaves a piece of the scan loop: normally, or with an
    exception that nothing inside the loop catches. *)
Inductive flow (A : Type) : Type :=
| Next (a : A)
| Abort (e : exn) (st : mstate).
Arguments Next {A} a.
Arguments Abort {A} e st.

(** How the scan loop ends. *)
Inductive outcome : Type :=
| Finished (st : mstate)
| Raised (e : exn) (st : mstate)
| OutOfFuel (st : mstate).

(** How [migrate_redis_keys] ends, and what it leaves behind. *)
Inductive status : Type :=
| Done
| Failed (e : exn).

Record run : Type := Run {
  run_status : status;
  run_state : mstate;
  run_file : list manifest_line
}.

(** ** The script *)

Section Migration.

Variable src : source.
Variable rejects : restore_cmd → option exn.
Variable cfg : config.
Variable env : environment.

(** *** [process_large_keys] *)

(** The body of the [try] of [process_large_keys], up to the values the
    [f.write] needs. *)
Definition try_large_key (key : string) : result (string * Z) :=
  data_type ← src_type src key ≫= decode;
  dumped_value ← src_dump src key;
  ttl ← src_ttl src key;
  let ttl := normalize_ttl ttl in
  Ok (data_type, ttl).

(** One turn of [for key_info in large_keys]. *)
Definition process_large_key (ps : pstate) (key_info : large_key) : pstate :=
  let key := lk_name key_info in
  match try_large_key key with
  | Ok (data_type, ttl) =>
    let line := ManifestLine key data_type ttl (lk_size key_info) in
    PState (file ps ++ [line])
           (pevents ps ++ [EvWrite line;
                           EvPrint (MsgCaptured key (lk_size key_info) data_type)])
  | Raise e =>
    PState (file ps) (pevents ps ++ [EvPrint (MsgErrorLarge key e)])
  end.

(** [file0] is the manifest file before the call.  The first [print] comes
    before [open(target_db_store, "w")], which is outside every [try]: when
    it raises, the file is left as it was, no entry is looked at and the
    exception ends the thread.  When it succeeds the file starts empty. *)
Definition process_large_keys (large_keys : list large_key)
    (target_db_store : string) (file0 : list manifest_line) : pstate :=
  let ps := PState file0 [EvPrint MsgProcessing] in
  match open_error env target_db_store with
  | Some e => PState (file ps) (pevents ps ++ [EvUncaught e])
  | None =>
    let ps := PState [] (pevents ps) in
    let ps := foldl process_large_key ps large_keys in
    PState (file ps) (pevents ps ++ [EvPrint (MsgLargeComplete target_db_store)])
  end.

(** *** The scan loop of [migrate_redis_keys] *)

(** The transfer of one key (lines 84 to 87, under [# Migrate key]). *)
Definition transfer_key (key : string) (st : mstate) (pipe : list restore_cmd)
    : result (mstate * list restore_cmd) :=
  dumped_value ← src_dump src key;
  ttl ← src_ttl src key;
  let ttl := normalize_ttl ttl in
  Ok (st, pipe_restore pipe key ttl dumped_value true).

(** The [try] block of the loop over a batch (lines 78 to 87). *)
Definition try_migrate_key (key : string) (st : mstate) (pipe : list restore_cmd)
    : result (mstate * list restore_cmd) :=
  usage ← src_memory_usage src key;
  let key_size := or_zero usage in
  if key_size >? size_limit cfg then
    Ok (append_large (LargeKey key key_size) st, pipe)
  else
    transfer_key key st pipe.

(** [try: ... except Exception as e: print(... key.decode() ...)].  The
    handler itself raises when the key is not UTF-8. *)
Definition migrate_key (key : string) (st : mstate) (pipe : list restore_cmd)
    : flow (mstate * list restore_cmd) :=
  match try_migrate_key key st pipe with
  | Ok r => Next r
  | Raise e =>
    match decode key with
    | Ok name => Next (print (MsgErrorMigrating name e) st, pipe)
    | Raise e' => Abort e' st
    end
  end.

(** [for key in keys: ...] *)
Fixpoint for_keys (keys : list string) (st : mstate) (pipe : list restore_cmd)
    : flow (mstate * list restore_cmd) :=
  match keys with
  | [] => Next (st, pipe)
  | key :: keys' =>
    match migrate_key key st pipe with
    | Next (st', pipe') => for_keys keys' st' pipe'
    | Abort e st' => Abort e st'
    end
  end.

(** [with target_redis.pipeline() as pipe: for ...; pipe.execute()] *)
Definition migrate_batch (keys : list string) (st : mstate) : flow mstate :=
  match for_keys keys st [] with
  | Abort e st' => Abort e st'
  | Next (st', pipe) =>
    let '(tgt, evs, err) := execute rejects env pipe (target st') in
    let st'' := emits evs (set_target tgt st') in
    match err with
    | Some e => Abort e st''
    | None => Next st''
    end
  end.

(** [while True: ...]; [fuel] bounds the number of calls to [scan]. *)
Fixpoint scan_loop (fuel : nat) (st : mstate) : outcome :=
  match fuel with
  | O => OutOfFuel st
  | S fuel' =>
    match src_scan src (cursor st) (batch_size cfg) with
    | Raise e => Raised e st
    | Ok (next, keys) =>
      let st := emit (EvScan (cursor st) (batch_size cfg) next keys)
                     (set_cursor next st) in
      match keys with
      | [] => Finished st
      | _ :: _ =>
        match migrate_batch keys st with
        | Abort e st' => Raised e st'
        | Next st' =>
          let st' := pbar_update (length keys) st' in
          if next =? 0 then Finished st' else scan_loop fuel' st'
        end
      end
    end
  end.

(** *** [migrate_redis_keys] *)

(** The three [except] clauses at the end of [migrate_redis_keys]. *)
Definition handler_msg (e : exn) : msg :=
  match e with
  | AuthenticationError _ => MsgAuthError
  | RedisError _ => MsgRedisError e
  | _ => MsgError e
  end.

Definition fail (e : exn) (st : mstate) (file0 : list manifest_line) : run :=
  Run (Failed e) (print (handler_msg e) st) file0.

(** The thread and the coordinator run side by side between
    [large_key_thread.start()] and [large_key_thread.join()].  In that
    window the coordinator does one thing, the [print] of line 101;
    [sched] is the number of steps the thread takes before it.  [join]
    returns whether the thread ended normally or with an exception. *)
Definition fork_join (sched : nat) (child : list event) (st : mstate) : mstate :=
  emits ([EvStart] ++ take sched child ++ [EvPrint MsgCompleted]
           ++ drop sched child ++ [EvJoin]) st.

(** [tgt0] is the target before the run, [file0] the manifest file before
    the run.  [None]: the scan loop did not end within [fuel] calls. *)
Definition migrate_redis_keys (fuel sched : nat)
    (tgt0 : store) (file0 : list manifest_line) : option run :=
  let st := MState 0 [] tgt0 0 [] in
  let st := print (MsgConnectedSource (source_host cfg) (source_port cfg)) st in
  let st := print (MsgConnectedTarget (target_host cfg) (target_port cfg)) st in
  match src_dbsize src with
  | Raise e => Some (fail e st file0)
  | Ok total_keys =>
    let st := print (MsgFound total_keys) st in
    match scan_loop fuel st with
    | OutOfFuel _ => None
    | Raised e st' => Some (fail e st' file0)
    | Finished st' =>
      let ps := process_large_keys (large_keys st') (large_key_file cfg) file0 in
      Some (Run Done (fork_join sched (pevents ps) st') (file ps))
    end
  end.

End Migration.

(** ** Reading a run *)

(** The [RESTORE] commands the target accepted, in order. *)
Definition restored (tr : list event) : list restore_cmd :=
  omap (λ ev, match ev with EvRestore c None => Some c | _ => None end) tr.

(** The keys reported by [Error migrating key ...], with the exception. *)
Definition failures (tr : list event) : list (string * exn) :=
  omap (λ ev, match ev with
              | EvPrint (MsgErrorMigrating name e) => Some (name, e)
              | _ => None
              end) tr.

(** The calls to [scan]: the cursor passed, the cursor returned and the
    batch returned. *)
Definition scans (tr : list event) : list (Z * Z * list string) :=
  omap (λ ev, match ev with
              | EvScan c _ next keys => Some (c, next, keys)
              | _ => None
              end) tr.

(** The keys the run enumerated. *)
Definition enumerated (tr : list event) : list string :=
  concat (snd <$> scans tr).

(** The calls that receive the replies [rs] when the first call passes
    cursor [c] and every other call passes the cursor returned before. *)
Fixpoint chain (c : Z) (rs : list (Z * list string)) : list (Z * Z * list string) :=
  match rs with
  | [] => []
  | (next, keys) :: rs' => (c, next, keys) :: chain next rs'
  end.

(** The keys of a list of replies, in order. *)
Definition all_keys (rs : list (Z * list string)) : list string :=
  concat (snd <$> rs).

(** The replies that return the terminal cursor 0. *)
Definition terminal (calls : list (Z * Z * list string)) : list (Z * Z * list string) :=
  filter (λ r, r.1.2 = 0) calls.

(** Standard output. *)
Definition prints (tr : list event) : list msg :=
  omap (λ ev, match ev with EvPrint m => Some m | _ => None end) tr.

(** Scanned, transferred, deferred and failed keys of a finished run. *)
Definition tally (st : mstate) : nat * nat * nat * nat :=
  (pbar st, length (restored (trace st)), length (large_keys st),
   length (failures (trace st))).

(** What the scan loop does, and what the thread does. *)
Definition main_event (ev : event) : bool :=
  match ev with
  | EvScan _ _ _ _ | EvRestore _ _ | EvDiscarded _ => true
  | EvPrint (MsgConnectedSource _ _) | EvPrint (MsgConnectedTarget _ _)
  | EvPrint (MsgFound _) | EvPrint (MsgErrorMigrating _ _) => true
  | _ => false
  end.

Definition thread_event (ev : event) : bool :=
  match ev with
  | EvWrite _ | EvUncaught _ => true
  | EvPrint MsgProcessing | EvPrint (MsgCaptured _ _ _)
  | EvPrint (MsgErrorLarge _ _) | EvPrint (MsgLargeComplete _) => true
  | _ => false
  end.


(** The effect of a list of accepted commands on the target. *)
Definition write_of (c : restore_cmd) : option (string * (string * Z)) :=
  match rc_value c with
  | Some v => Some (rc_name c, (v, rc_ttl c))
  | None => None
  end.

Definition apply_writes (ws : list (string * (string * Z))) (tgt : store) : store :=
  foldl (λ m w, <[w.1 := w.2]> m) tgt ws.

(** The four ways one turn of the loop over a batch can go. *)
Inductive class : Type :=
| Deferred (lk : large_key)
| Transfer (c : restore_cmd)
| Skipped (name : string) (e : exn)
| Crash (e : exn).

Section Reading.

Variable src : source.
Variable rejects : restore_cmd → option exn.
Variable cfg : config.
Variable env : environment.

Definition failed (key : string) (e : exn) : class :=
  match decode key with
  | Ok name => Skipped name e
  | Raise e' => Crash e'
  end.

Definition classify (key : string) : class :=
  match src_memory_usage src key with
  | Raise e => failed key e
  | Ok usage =>
    let key_size := or_zero usage in
    if key_size >? size_limit cfg then Deferred (LargeKey key key_size)
    else
      match src_dump src key with
      | Raise e => failed key e
      | Ok dumped_value =>
        match src_ttl src key with
        | Raise e => failed key e
        | Ok ttl => Transfer (RestoreCmd key (normalize_ttl ttl) dumped_value true)
        end
      end
  end.

Definition deferred_of (keys : list string) : list large_key :=
  omap (λ k, match classify k with Deferred lk => Some lk | _ => None end) keys.

Definition transfers_of (keys : list string) : list restore_cmd :=
  omap (λ k, match classify k with Transfer c => Some c | _ => None end) keys.

Definition skipped_of (keys : list string) : list (string * exn) :=
  omap (λ k, match classify k with Skipped n e => Some (n, e) | _ => None end) keys.

(** The reply of the target to a command sent with [REPLACE]. *)
Definition reply_of (c : restore_cmd) : option exn :=
  match rejects c with
  | Some e => Some e
  | None => match rc_value c with Some _ => None | None => Some data_error end
  end.

(** What the accepted commands of a queue write. *)
Definition writes_of (pipe : list restore_cmd) : list (string * (string * Z)) :=
  omap write_of (filter (λ c, reply_of c = None) pipe).

(** A key whose turn neither crashes the handler nor queues a command the
    target refuses. *)
Definition clean (key : string) : bool :=
  match classify key with
  | Crash _ => false
  | Transfer c => bool_decide (reply_of c = None)
  | _ => true
  end.

(** The exception [e] is raised inside the [try] for [key]: by the size
    query, by the serialization or by the lifetime query. *)
Definition raises_in_try (key : string) (e : exn) : Prop :=
  src_memory_usage src key = Raise e
  ∨ ∃ usage, src_memory_usage src key = Ok usage
      ∧ or_zero usage ≤ size_limit cfg
      ∧ (src_dump src key = Raise e
         ∨ ∃ v, src_dump src key = Ok v ∧ src_ttl src key = Raise e).

(** The replies of [scan] from cursor [c] on, up to the reply that returns
    cursor 0: what the source yields when it is walked to the end. *)
Fixpoint keyspace_walk (fuel : nat) (c : Z) : option (list (Z * list string)) :=
  match fuel with
  | O => None
  | S fuel' =>
    match src_scan src c (batch_size cfg) with
    | Raise _ => None
    | Ok (next, keys) =>
      if next =? 0 then Some [(next, keys)]
      else cons (next, keys) <$> keyspace_walk fuel' next
    end
  end.

(** The state after the loop over a batch, when no turn crashes. *)
Definition crashes (key : string) : bool :=
  match classify key with Crash _ => true | _ => false end.

Definition skip_events (keys : list string) : list event :=
  (λ f, EvPrint (MsgErrorMigrating f.1 f.2)) <$> skipped_of keys.

Definition after_keys (keys : list string) (st : mstate) : mstate :=
  MState (cursor st) (large_keys st ++ deferred_of keys) (target st) (pbar st)
         (trace st ++ skip_events keys).

(** The state after a batch whose keys are all [clean]. *)
Definition done_batch (keys : list string) (st : mstate) : mstate :=
  emits ((λ c, EvRestore c None) <$> transfers_of keys)
        (set_target (apply_writes (omap write_of (transfers_of keys)) (target st))
                    (after_keys keys st)).

(** The state after one turn of the scan loop that received [(next, keys)]. *)
Definition step_state (r : Z * list string) (st : mstate) : mstate :=
  pbar_update (length r.2)
    (done_batch r.2 (emit (EvScan (cursor st) (batch_size cfg) r.1 r.2)
                          (set_cursor r.1 st))).

Definition steps (rs : list (Z * list string)) (st : mstate) : mstate :=
  foldl (λ st r, step_state r st) st rs.

(** What the thread does for one entry, and for a list of entries. *)
Definition entry_events (key_info : large_key) : list event :=
  match try_large_key src (lk_name key_info) with
  | Ok (data_type, ttl) =>
    [EvWrite (ManifestLine (lk_name key_info) data_type ttl (lk_size key_info));
     EvPrint (MsgCaptured (lk_name key_info) (lk_size key_info) data_type)]
  | Raise e => [EvPrint (MsgErrorLarge (lk_name key_info) e)]
  end.

Definition thread_events (entries : list large_key) (target_db_store : string)
    : list event :=
  match open_error env target_db_store with
  | Some e => [EvPrint MsgProcessing; EvUncaught e]
  | None =>
    [EvPrint MsgProcessing] ++ concat (entry_events <$> entries)
      ++ [EvPrint (MsgLargeComplete target_db_store)]
  end.

(** The state when the scan loop starts. *)
Definition start_state (total_keys : Z) (tgt0 : store) : mstate :=
  print (MsgFound total_keys)
    (print (MsgConnectedTarget (target_host cfg) (target_port cfg))
       (print (MsgConnectedSource (source_host cfg) (source_port cfg))
          (MState 0 [] tgt0 0 []))).

(** The manifest line of an entry, when its queries succeed. *)
Definition manifest_entry (key_info : large_key) : option manifest_line :=
  match try_large_key src (lk_name key_info) with
  | Ok (data_type, ttl) =>
    Some (ManifestLine (lk_name key_info) data_type ttl (lk_size key_info))
  | Raise _ => None
  end.

(** The manifest file after the thread has gone through [entries]. *)
Definition manifest_of (entries : list large_key) (target_db_store : string)
    (file0 : list manifest_line) : list manifest_line :=
  match open_error env target_db_store with
  | Some _ => file0
  | None => omap manifest_entry entries
  end.

End Reading.


(** Replacing the target in a state and in an outcome. *)
Definition outcome_set_target (t : store) (o : outcome) : outcome :=
  match o with
  | Finished st => Finished (set_target t st)
  | Raised e st => Raised e (set_target t st)
  | OutOfFuel st => OutOfFuel (set_target t st)
  end.

Definition flow_set_target (t : store) (f : flow mstate) : flow mstate :=
  match f with
  | Next st => Next (set_target t st)
  | Abort e st => Abort e (set_target t st)
  end.

Definition keys_set_target (t : store) (f : flow (mstate * list restore_cmd))
    : flow (mstate * list restore_cmd) :=
  match f with
  | Next (st, pipe) => Next (set_target t st, pipe)
  | Abort e st => Abort e (set_target t st)
  end.

Definition run_tally (r : option run) : option (nat * nat * nat * nat) :=
  (λ r, tally (run_state r)) <$> r.

Definition run_prints (r : option run) : option (list msg) :=
  (λ r, prints (trace (run_state r))) <$> r.

(** ** Concrete sources *)

Definition MB : Z := 1024 * 1024.

(** A source that hands out [batches] one per call, with cursors 1, 2, ...
    and 0 with the last batch. *)
Definition scan_of (batches : list (list string)) (c count : Z)
    : result (Z * list string) :=
  match batches !! Z.to_nat c with
  | Some keys => Ok (if c + 1 <? Z.of_nat (length batches) then c + 1 else 0, keys)
  | None => Ok (0, [])
  end.

Definition accept_all : restore_cmd → option exn := λ _, None.

(** The text of a command as redis-py shows it in an error message, for a
    command whose arguments are plain text. *)
Definition command_text (c : restore_cmd) : string :=
  "RESTORE " +:+ rc_name c +:+ " " +:+ NilZero.string_of_int (Z.to_int (rc_ttl c))
    +:+ " " +:+ default "" (rc_value c)
    +:+ (if rc_replace c then " REPLACE" else "").

(** [annotate_exception] of redis-py. *)
Definition annotate (number : nat) (c : restore_cmd) (e : exn) : exn :=
  let text m :=
    "Command # " +:+ NilEmpty.string_of_uint (Nat.to_uint number) +:+ " ("
      +:+ command_text c +:+ ") of pipeline caused error: " +:+ m in
  match e with
  | AuthenticationError m => AuthenticationError (text m)
  | RedisError m => RedisError (text m)
  | UnicodeDecodeError => UnicodeDecodeError
  | OtherError m => OtherError (text m)
  end.

(** A directory in which every file can be opened, and a target whose
    refusals, if any, come when the command runs. *)
Definition plain_env : environment := Environment (λ _, None) (λ _, false) annotate.

(** The program state before anything has happened. *)
Definition empty_state : mstate := MState 0 [] ∅ 0 [].

(** The scenario of the specification: [a] of 1 MB, [b] of 20 MB, [c]
    without expiration, and a limit of 10 MB. *)
Module Scenario.

Definition cfg : config :=
  Config "src.example" 6379 "pw" 0 "dst.example" 6380 "pw" 0
         1000 (10 * MB) "large_keys.txt".

Definition src : source :=
  Source (Ok 3) (scan_of [["a"; "b"; "c"]])
    (λ k, Ok (Some (if String.eqb k "b" then 20 * MB else MB)))
    (λ k, Ok (Some ("dump:" +:+ k)))
    (λ k, Ok (if String.eqb k "c" then -1 else 60))
    (λ k, Ok "string").

(** The same, with a key [d] created after [dbsize] was read. *)
Definition src_late_key : source :=
  Source (Ok 3) (scan_of [["a"; "b"; "c"; "d"]])
    (src_memory_usage src) (src_dump src) (src_ttl src) (src_type src).


(** What the script does before the thread starts, on an empty target. *)
Definition main_pass : list event :=
  [EvPrint (MsgConnectedSource "src.example" 6379);
   EvPrint (MsgConnectedTarget "dst.example" 6380);
   EvPrint (MsgFound 3);
   EvScan 0 1000 0 ["a"; "b"; "c"];
   EvRestore (RestoreCmd "a" 60000 (Some "dump:a") true) None;
   EvRestore (RestoreCmd "c" 0 (Some "dump:c") true) None].

(** The run on an empty target when the thread takes two steps before the
    coordinator prints its line. *)
Definition final : run :=
  Run Done
    (MState 0 [LargeKey "b" (20 * MB)]
       (<["a" := ("dump:a", 60000)]> (<["c" := ("dump:c", 0)]> ∅)) 3
       (main_pass ++
        [EvStart;
         EvPrint MsgProcessing;
         EvWrite (ManifestLine "b" "string" 60000 (20 * MB));
         EvPrint MsgCompleted;
         EvPrint (MsgCaptured "b" (20 * MB) "string");
         EvPrint (MsgLargeComplete "large_keys.txt");
         EvJoin]))
    [ManifestLine "b" "string" 60000 (20 * MB)].

End Scenario.

(** A source with one key per kind of reply, in two batches. *)
Module Faulty.

Definition cfg : config := Scenario.cfg.

Definition timeout : exn := RedisError "Timeout reading from socket".
Definition bad_payload : exn :=
  RedisError "DUMP payload version or checksum are wrong".

Definition src : source :=
  Source (Ok 8)
    (scan_of [["a"; "at"; "over"; "nosize"; "sizeerr"; "dumperr"; "ttlerr"];
              ["gone"]])
    (λ k, if String.eqb k "sizeerr" then Raise timeout
          else if String.eqb k "nosize" then Ok None
          else if String.eqb k "at" then Ok (Some (10 * MB))
          else if String.eqb k "over" then Ok (Some (10 * MB + 1))
          else Ok (Some MB))
    (λ k, if String.eqb k "dumperr" then Raise timeout
          else Ok (Some ("dump:" +:+ k)))
    (λ k, if String.eqb k "ttlerr" then Raise timeout
          else if String.eqb k "gone" then Ok (-2)
          else Ok 60)
    (λ k, if String.eqb k "ttlerr" then Raise timeout else Ok "hash").

(** Two batches; the target refuses the payload of [a]. *)
Definition src_two : source :=
  Source (Ok 3) (scan_of [["a"; "b"]; ["c"]])
    (λ k, Ok (Some MB)) (λ k, Ok (Some ("dump:" +:+ k)))
    (λ k, Ok 60) (λ k, Ok "string").

Definition rejects_a : restore_cmd → option exn :=
  λ c, if String.eqb (rc_name c) "a" then Some bad_payload else None.

(** What [pipe.execute()] raises for that refusal. *)
Definition refused_a : exn :=
  RedisError "Command # 1 (RESTORE a 60000 dump:a REPLACE) of pipeline caused error: DUMP payload version or checksum are wrong".

(** A target on which the user of the script may not write [a]: the
    command is refused as soon as it is queued. *)
Definition no_permission : exn :=
  RedisError "this user has no permissions to access one of the keys used as arguments".

Definition denies_a : restore_cmd → option exn :=
  λ c, if String.eqb (rc_name c) "a" then Some no_permission else None.

Definition env_acl : environment := Environment (λ _, None) (λ _, true) annotate.

Definition denied_a : exn :=
  RedisError "Command # 1 (RESTORE a 60000 dump:a REPLACE) of pipeline caused error: this user has no permissions to access one of the keys used as arguments".

(** The size query of [a] times out. *)
Definition src_size_timeout : source :=
  Source (Ok 2) (scan_of [["a"; "c"]])
    (λ k, if String.eqb k "a" then Raise timeout else Ok (Some MB))
    (λ k, Ok (Some ("dump:" +:+ k))) (λ k, Ok 60) (λ k, Ok "string").

(** A sparse keyspace: the first call returns no key and cursor 1. *)
Definition src_sparse : source :=
  Source (Ok 1) (scan_of [[]; ["a"]])
    (λ k, Ok (Some MB)) (λ k, Ok (Some ("dump:" +:+ k)))
    (λ k, Ok 60) (λ k, Ok "string").

(** A key that is not UTF-8 (the byte 255) and cannot be serialized. *)
Definition src_binary : source :=
  Source (Ok 3) (scan_of [["a"; String "255"%char ""]; ["c"]])
    (λ k, Ok (Some MB))
    (λ k, if String.eqb k (String "255"%char "") then Raise timeout
          else Ok (Some ("dump:" +:+ k)))
    (λ k, Ok 60) (λ k, Ok "string").

(** The replies of [src] walked to the end. *)
Definition replies : list (Z * list string) :=
  [(1, ["a"; "at"; "over"; "nosize"; "sizeerr"; "dumperr"; "ttlerr"]);
   (0, ["gone"])].

End Faulty.

(** ** Accounting for a run *)

(** The state in which the scan loop leaves off, however it ends. *)
Definition outcome_state (o : outcome) : mstate :=
  match o with
  | Finished st => st
  | Raised _ st => st
  | OutOfFuel st => st
  end.



(** The [RESTORE] commands the target answered, accepted or refused. *)
Definition sent (tr : list event) : list restore_cmd :=
  omap (λ ev, match ev with EvRestore c _ => Some c | _ => None end) tr.

(** How a walk of the source along the lines of the scan loop ends: with
    the terminal cursor, with a batch without keys (and the cursor that came
    with it), or with an exception of [scan]. *)
Inductive walk_end : Type :=
| EndTerminal
| EndEmpty (next : Z)
| EndError (e : exn).

Section Accounting.

Variable src : source.
Variable rejects : restore_cmd → option exn.
Variable cfg : config.

(** An event of the main pass that the source, the target and the
    arguments of the run account for. *)
Definition justified (ev : event) : Prop :=
  match ev with
  | EvScan c count next keys =>
    count = batch_size cfg ∧ src_scan src c count = Ok (next, keys)
  | EvRestore c reply =>
    classify src cfg (rc_name c) = Transfer c
    ∧ has_value c = true
    ∧ reply = reply_of rejects c
  | EvDiscarded c =>
    classify src cfg (rc_name c) = Transfer c ∧ has_value c = true
  | EvPrint (MsgErrorMigrating name e) => classify src cfg name = Skipped name e
  | EvPrint (MsgConnectedSource host port) =>
    host = source_host cfg ∧ port = source_port cfg
  | EvPrint (MsgConnectedTarget host port) =>
    host = target_host cfg ∧ port = target_port cfg
  | EvPrint (MsgFound total_keys) => src_dbsize src = Ok total_keys
  | _ => False
  end.

(** An entry of the deferred list that the source accounts for. *)
Definition deferred_ok (lk : large_key) : Prop :=
  classify src cfg (lk_name lk) = Deferred lk.

(** [st'] comes after [st] in a run: the trace and the deferred list have
    been extended, by events and entries that are accounted for, and the
    target has received the accepted commands of those events, in order. *)
Definition grows (st st' : mstate) : Prop :=
  ∃ evs lks,
    trace st' = trace st ++ evs
    ∧ Forall justified evs
    ∧ large_keys st' = large_keys st ++ lks
    ∧ Forall deferred_ok lks
    ∧ target st' = apply_writes (omap write_of (restored evs)) (target st).

(** The replies the scan loop receives from cursor [c] on, batch by batch,
    and how the walk ends. *)
Fixpoint loop_walk (fuel : nat) (c : Z) : option (list (Z * list string) * walk_end) :=
  match fuel with
  | O => None
  | S fuel' =>
    match src_scan src c (batch_size cfg) with
    | Raise e => Some ([], EndError e)
    | Ok (next, []) => Some ([], EndEmpty next)
    | Ok (next, keys) =>
      if next =? 0 then Some ([(next, keys)], EndTerminal)
      else (λ r, ((next, keys) :: r.1, r.2)) <$> loop_walk fuel' next
    end
  end.

(** The outcome of the scan loop after the replies [rs], by the end of the
    walk. *)
Definition walk_outcome (rs : list (Z * list string)) (w : walk_end) (st : mstate)
    : outcome :=
  match w with
  | EndTerminal => Finished (steps src cfg rs st)
  | EndEmpty next => Finished (steps src cfg (rs ++ [(next, [])]) st)
  | EndError e => Raised e (steps src cfg rs st)
  end.

End Accounting.

(** Sources that fail or run dry in the middle of a scan. *)
Module Outage.

Definition cfg : config := Scenario.cfg.

Definition lost : exn := RedisError "Connection closed by server.".

(** The second call to [scan] raises. *)
Definition src_scan_error : source :=
  Source (Ok 4)
    (λ c count, if c =? 0 then Ok (1, ["a"; "b"]) else Raise lost)
    (λ k, Ok (Some (if String.eqb k "b" then 20 * MB else MB)))
    (λ k, Ok (Some ("dump:" +:+ k))) (λ k, Ok 60) (λ k, Ok "string").

(** The second call returns no key and cursor 2; [c] would come third. *)
Definition src_gap : source :=
  Source (Ok 2) (scan_of [["a"]; []; ["c"]])
    (λ k, Ok (Some MB)) (λ k, Ok (Some ("dump:" +:+ k)))
    (λ k, Ok 60) (λ k, Ok "string").

(** [a] has disappeared between [scan] and [dump]; [z] has under a second
    to live. *)
Definition src_vanished : source :=
  Source (Ok 3) (scan_of [["a"; "b"; "z"]])
    (λ k, if String.eqb k "a" then Ok None else Ok (Some MB))
    (λ k, if String.eqb k "a" then Ok None else Ok (Some ("dump:" +:+ k)))
    (λ k, if String.eqb k "a" then Ok (-2)
          else if String.eqb k "z" then Ok 0 else Ok 60)
    (λ k, Ok "string").

(** A source whose cursor never comes back to 0: every call returns
    cursor 1 and the key [a]. *)
Definition src_cycle : source :=
  Source (Ok 1) (λ c count, Ok (1, ["a"]))
    (λ k, Ok (Some MB)) (λ k, Ok (Some ("dump:" +:+ k)))
    (λ k, Ok 60) (λ k, Ok "string").

(** A target that holds [old] and an earlier copy of [a]. *)
Definition tgt_used : store :=
  <["old" := ("dump:old", 0)]> (<["a" := ("stale", 5000)]> ∅).

(** The manifest left by an earlier run. *)
Definition old_manifest : list manifest_line :=
  [ManifestLine "x" "string" 0 (30 * MB)].




(** The run on [src_scan_error], from [tgt_used] and [old_manifest]. *)
Definition failed : run :=
  Run (Failed lost)
    (MState 1 [LargeKey "b" (20 * MB)]
       (<["old" := ("dump:old", 0)]> (<["a" := ("dump:a", 60000)]> ∅)) 2
       [EvPrint (MsgConnectedSource "src.example" 6379);
        EvPrint (MsgConnectedTarget "dst.example" 6380);
        EvPrint (MsgFound 4);
        EvScan 0 1000 1 ["a"; "b"];
        EvRestore (RestoreCmd "a" 60000 (Some "dump:a") true) None;
        EvPrint (MsgRedisError lost)])
    old_manifest.

(** The run on [Faulty.src_size_timeout], from an empty target. *)
Definition skipped : run :=
  Run Done
    (MState 0 [] (<["c" := ("dump:c", 60000)]> ∅) 2
       [EvPrint (MsgConnectedSource "src.example" 6379);
        EvPrint (MsgConnectedTarget "dst.example" 6380);
        EvPrint (MsgFound 2);
        EvScan 0 1000 0 ["a"; "c"];
        EvPrint (MsgErrorMigrating "a" Faulty.timeout);
        EvRestore (RestoreCmd "c" 60000 (Some "dump:c") true) None;
        EvStart;
        EvPrint MsgCompleted;
        EvPrint MsgProcessing;
        EvPrint (MsgLargeComplete "large_keys.txt");
        EvJoin])
    [].

End Outage.

(** * Properties *)

Section Properties.

Variable src : source.
Variable rejects : restore_cmd → option exn.
Variable cfg : config.
Variable env : environment.

(** ** One key *)

Lemma or_zero_some (n : Z) : or_zero (Some n) = n.
Proof. unfold or_zero. destruct (Z.eqb_spec n 0); congruence. Qed.

Lemma normalize_no_expiry : normalize_ttl (-1) = 0.
Proof. reflexivity. Qed.

Lemma normalize_other (t : Z) : t ≠ -1 → normalize_ttl t = t * 1000.
Proof. intros H. unfold normalize_ttl. destruct (Z.eqb_spec t (-1)); congruence. Qed.

(** One turn of the loop over a batch does what [classify] says. *)
Lemma migrate_key_classify (key : string) (st : mstate) (pipe : list restore_cmd) :
  migrate_key src cfg key st pipe =
  match classify src cfg key with
  | Deferred lk => Next (append_large lk st, pipe)
  | Transfer c => Next (st, pipe ++ [c])
  | Skipped name e => Next (print (MsgErrorMigrating name e) st, pipe)
  | Crash e => Abort e st
  end.
Proof.
  unfold migrate_key, try_migrate_key, transfer_key, classify, failed, pipe_restore.
  destruct (src_memory_usage src key) as [usage|e]; simpl.
  - destruct (or_zero usage >? size_limit cfg); simpl; [done|].
    destruct (src_dump src key) as [v|e]; simpl.
    + destruct (src_ttl src key) as [t|e]; simpl; [done|].
      by destruct (decode key).
    + by destruct (decode key).
  - by destruct (decode key).
Qed.

Lemma try_migrate_key_usage (key : string) (st : mstate)
    (pipe : list restore_cmd) (usage : option Z) :
  src_memory_usage src key = Ok usage →
  try_migrate_key src cfg key st pipe
  = if or_zero usage >? size_limit cfg
    then Ok (append_large (LargeKey key (or_zero usage)) st, pipe)
    else transfer_key src key st pipe.
Proof. intros H. unfold try_migrate_key. by rewrite H. Qed.

(** The [try] raises exactly in the three cases of [raises_in_try]. *)
Lemma try_raises (key : string) (st : mstate) (pipe : list restore_cmd) (e : exn) :
  try_migrate_key src cfg key st pipe = Raise e ↔ raises_in_try src cfg key e.
Proof.
  unfold try_migrate_key, transfer_key, raises_in_try. split.
  - destruct (src_memory_usage src key) as [usage|e0] eqn:Hu; simpl.
    + destruct (Z.gtb_spec (or_zero usage) (size_limit cfg)) as [Hgt|Hle]; simpl; [done|].
      intros H. right. exists usage. split; [done|]. split; [lia|].
      destruct (src_dump src key) as [v|e1]; simpl in H.
      * right. exists v. split; [done|].
        destruct (src_ttl src key); simpl in H; congruence.
      * left. congruence.
    + intros [= ->]. by left.
  - intros [->|(usage & -> & Hle & H)]; simpl; [done|].
    destruct (Z.gtb_spec (or_zero usage) (size_limit cfg)) as [Hgt|_]; [lia|].
    destruct H as [->|(v & -> & ->)]; done.
Qed.

Lemma for_keys_app (pre post : list string) (st : mstate) (pipe : list restore_cmd) :
  for_keys src cfg (pre ++ post) st pipe =
  match for_keys src cfg pre st pipe with
  | Next (st', pipe') => for_keys src cfg post st' pipe'
  | Abort e st' => Abort e st'
  end.
Proof.
  revert st pipe. induction pre as [|k pre IH]; intros st pipe; simpl; [done|].
  destruct (migrate_key src cfg k st pipe) as [[st' pipe']|e st']; [apply IH|done].
Qed.

(** ** The target and the pipeline *)

(** With [REPLACE] the reply to a command does not depend on what the
    target holds, and an accepted command overwrites. *)
Lemma restore_replace (c : restore_cmd) (tgt : store) :
  rc_replace c = true →
  restore rejects c tgt =
  match reply_of rejects c with
  | Some e => Raise e
  | None => Ok (apply_writes (option_list (write_of c)) tgt)
  end.
Proof.
  intros Hr. unfold restore, reply_of, write_of, apply_writes.
  destruct (rejects c); [done|].
  destruct (rc_value c); [|done]. by rewrite Hr.
Qed.

Lemma apply_writes_app (ws1 ws2 : list (string * (string * Z))) (tgt : store) :
  apply_writes (ws1 ++ ws2) tgt = apply_writes ws2 (apply_writes ws1 tgt).
Proof. unfold apply_writes. apply foldl_app. Qed.

Lemma run_commands_replace (pipe : list restore_cmd) (tgt : store) :
  Forall (λ c, rc_replace c = true) pipe →
  run_commands rejects pipe tgt
  = (apply_writes (writes_of rejects pipe) tgt, (λ c, EvRestore c (reply_of rejects c)) <$> pipe).
Proof.
  intros Hall. revert tgt. induction Hall as [|c cs Hc _ IH]; intros tgt; [done|].
  simpl. rewrite (restore_replace _ _ Hc). unfold writes_of.
  rewrite filter_cons. destruct (reply_of rejects c) as [e|] eqn:Hrep.
  - rewrite decide_False by done. rewrite IH. done.
  - rewrite decide_True by done. rewrite IH. simpl.
    unfold writes_of. destruct (write_of c); done.
Qed.

Lemma first_refused_replies (number : nat) (pipe : list restore_cmd) :
  first_refused number ((λ c, EvRestore c (reply_of rejects c)) <$> pipe) = None
  ↔ Forall (λ c, reply_of rejects c = None) pipe.
Proof.
  revert number. induction pipe as [|c cs IH]; intros number; simpl; [by split|].
  destruct (reply_of rejects c) eqn:Hrep.
  - split; [done|]. intros H. inversion H; congruence.
  - rewrite IH. split; [by constructor|]. intros H. by inversion H.
Qed.

Lemma raised_replies (pipe : list restore_cmd) :
  raised env ((λ c, EvRestore c (reply_of rejects c)) <$> pipe) = None
  ↔ Forall (λ c, reply_of rejects c = None) pipe.
Proof.
  rewrite <- (first_refused_replies 1). unfold raised.
  by destruct (first_refused 1 _) as [[[number c] e]|].
Qed.

(** A command the target accepts is not refused when it is queued. *)
Lemma accepted_not_refused (pipe : list restore_cmd) :
  Forall (λ c, reply_of rejects c = None) pipe →
  existsb (refused_at_queue rejects env) pipe = false.
Proof.
  induction 1 as [|c cs Hc _ IH]; [done|]. cbn [existsb]. rewrite IH.
  unfold refused_at_queue, reply_of in *. by destruct (rejects c).
Qed.

(** A discarded transaction raises. *)
Lemma aborted_refused (number : nat) (pipe : list restore_cmd) :
  existsb (refused_at_queue rejects env) pipe = true →
  first_refused number (aborted rejects env pipe) ≠ None.
Proof.
  revert number. induction pipe as [|c cs IH]; intros number; [done|].
  cbn [existsb]. unfold aborted. rewrite fmap_cons.
  destruct (refused_at_queue rejects env c) eqn:Hq.
  - intros _. unfold refused_at_queue in Hq. by destruct (rejects c).
  - simpl. apply IH.
Qed.

Lemma aborted_raises (pipe : list restore_cmd) :
  existsb (refused_at_queue rejects env) pipe = true →
  raised env (aborted rejects env pipe) ≠ None.
Proof.
  intros H. unfold raised. pose proof (aborted_refused 1 pipe H) as Hne.
  by destruct (first_refused 1 _) as [[[number c] e]|].
Qed.

(** ** The turn of one key *)

(** C5: the Router compares the size with [size_limit] strictly.  A key
    whose size is at most [size_limit], and so a key of exactly [size_limit]
    bytes, takes the transfer path: the deferred list is left alone, and
    when the key can be serialized its [RESTORE] is queued.  A key whose size
    is above [size_limit], and so a key of [size_limit + 1] bytes, is
    deferred: an entry with its name and its size is appended to the
    deferred list, nothing is queued for it and nothing else changes. *)
Theorem C5_size_boundary (key : string) (n : Z) (st : mstate)
    (pipe : list restore_cmd) :
  src_memory_usage src key = Ok (Some n) →
  (n ≤ size_limit cfg →
     try_migrate_key src cfg key st pipe = transfer_key src key st pipe
     ∧ (∀ st' pipe', migrate_key src cfg key st pipe = Next (st', pipe') →
          large_keys st' = large_keys st)
     ∧ (∀ v t, src_dump src key = Ok v → src_ttl src key = Ok t →
          migrate_key src cfg key st pipe
          = Next (st, pipe ++ [RestoreCmd key (normalize_ttl t) v true])))
  ∧ (size_limit cfg < n →
     migrate_key src cfg key st pipe
     = Next (MState (cursor st) (large_keys st ++ [LargeKey key n]) (target st)
                    (pbar st) (trace st), pipe))
  ∧ (n = size_limit cfg →
     try_migrate_key src cfg key st pipe = transfer_key src key st pipe)
  ∧ (n = size_limit cfg + 1 →
     migrate_key src cfg key st pipe
     = Next (MState (cursor st)
                    (large_keys st ++ [LargeKey key (size_limit cfg + 1)])
                    (target st) (pbar st) (trace st), pipe)).
Proof.
  intros Hu.
  assert (Hle : n ≤ size_limit cfg →
            try_migrate_key src cfg key st pipe = transfer_key src key st pipe).
  { intros Hle. rewrite (try_migrate_key_usage _ _ _ _ Hu), or_zero_some.
    destruct (Z.gtb_spec n (size_limit cfg)) as [Hgt|_]; [lia|done]. }
  assert (Hgt : size_limit cfg < n →
            migrate_key src cfg key st pipe
            = Next (MState (cursor st) (large_keys st ++ [LargeKey key n])
                           (target st) (pbar st) (trace st), pipe)).
  { intros Hgt. unfold migrate_key.
    rewrite (try_migrate_key_usage _ _ _ _ Hu), or_zero_some.
    destruct (Z.gtb_spec n (size_limit cfg)) as [_|Hle']; [done|lia]. }
  split; [|split; [done|split]].
  - intros Hn. split; [by apply Hle|]. split.
    + intros st' pipe'. unfold migrate_key. rewrite (Hle Hn). unfold transfer_key.
      destruct (src_dump src key) as [v|e]; simpl.
      * destruct (src_ttl src key) as [t|e]; simpl.
        -- by intros [= <- _].
        -- destruct (decode key); [|done]. by intros [= <- _].
      * destruct (decode key); [|done]. by intros [= <- _].
    + intros v t Hd Ht. unfold migrate_key. rewrite (Hle Hn).
      unfold transfer_key, pipe_restore. rewrite Hd. simpl. by rewrite Ht.
  - intros ->. apply Hle. lia.
  - intros ->. apply Hgt. lia.
Qed.

(** C6: on the transfer path the lifetime reported by the source is
    normalized, -1 (no expiration) to 0 and [N >= 0] seconds to [N * 1000]
    milliseconds, and the normalized value is the ttl of the [RESTORE]
    queued for the key and of the command sent to the target. *)
Theorem C6_lifetime_normalized (key : string) (st : mstate)
    (pipe : list restore_cmd) (usage : option Z) (v : option string) (t : Z) :
  src_memory_usage src key = Ok usage →
  or_zero usage ≤ size_limit cfg →
  src_dump src key = Ok v →
  src_ttl src key = Ok t →
  migrate_key src cfg key st pipe
    = Next (st, pipe ++ [RestoreCmd key (normalize_ttl t) v true])
  ∧ (t = -1 → normalize_ttl t = 0)
  ∧ (0 ≤ t → normalize_ttl t = t * 1000)
  ∧ (∀ tgt, (execute rejects env [RestoreCmd key (normalize_ttl t) v true] tgt).1.2
            = if has_value (RestoreCmd key (normalize_ttl t) v true)
              then [EvRestore (RestoreCmd key (normalize_ttl t) v true)
                      (reply_of rejects (RestoreCmd key (normalize_ttl t) v true))]
              else []).
Proof.
  intros Hu Hle Hd Ht. split; [|split; [|split]].
  - unfold migrate_key. rewrite (try_migrate_key_usage _ _ _ _ Hu).
    destruct (Z.gtb_spec (or_zero usage) (size_limit cfg)) as [Hgt|_]; [lia|].
    unfold transfer_key, pipe_restore. rewrite Hd. simpl. rewrite Ht. done.
  - intros ->. apply normalize_no_expiry.
  - intros Hpos. apply normalize_other. lia.
  - intros tgt. unfold execute. simpl forallb.
    destruct (has_value _) eqn:Hv; [|done]. simpl andb. cbv iota.
    cbn [existsb]. rewrite orb_false_r.
    destruct (refused_at_queue rejects env _) eqn:Hq.
    + unfold aborted. rewrite fmap_cons, Hq. unfold refused_at_queue in Hq.
      unfold reply_of. by destruct (rejects _).
    + rewrite run_commands_replace by (repeat constructor). done.
Qed.

(** C10: only -1 is special.  Any other lifetime is multiplied by 1000, so
    the -2 that the source reports for a key that has disappeared becomes
    -2000, which is the ttl of the [RESTORE] queued for the key, and the
    TTL written to the manifest by the deferred pass. *)
Theorem C10_missing_key_lifetime (key : string) (st : mstate)
    (pipe : list restore_cmd) (usage : option Z) (v : option string) :
  src_memory_usage src key = Ok usage →
  or_zero usage ≤ size_limit cfg →
  src_dump src key = Ok v →
  src_ttl src key = Ok (-2) →
  migrate_key src cfg key st pipe = Next (st, pipe ++ [RestoreCmd key (-2000) v true])
  ∧ (∀ t, t ≠ -1 → normalize_ttl t = t * 1000)
  ∧ (∀ ps size data_type,
       src_type src key ≫= decode = Ok data_type →
       file (process_large_key src ps (LargeKey key size))
       = file ps ++ [ManifestLine key data_type (-2000) size]).
Proof.
  intros Hu Hle Hd Ht. split; [|split].
  - unfold migrate_key. rewrite (try_migrate_key_usage _ _ _ _ Hu).
    destruct (Z.gtb_spec (or_zero usage) (size_limit cfg)) as [Hgt|_]; [lia|].
    unfold transfer_key, pipe_restore. rewrite Hd. simpl. rewrite Ht. done.
  - apply normalize_other.
  - intros ps size data_type Hty. unfold process_large_key, try_large_key. simpl.
    rewrite Hty. simpl. rewrite Hd. simpl. rewrite Ht. done.
Qed.

(** C4 (amended): when the size query returns no size the key counts as 0
    bytes and, the limit being non-negative, takes the transfer path.  When
    the size query raises, the exception is caught like any other failure of
    the key: it is logged with the key's name, the key is neither
    transferred nor deferred, and the loop goes on (the name being UTF-8). *)
Theorem C4_size_query_failure (k_none k_err : string) (e : exn) (name : string)
    (st : mstate) (pipe : list restore_cmd) :
  0 ≤ size_limit cfg →
  src_memory_usage src k_none = Ok None →
  src_memory_usage src k_err = Raise e →
  decode k_err = Ok name →
  try_migrate_key src cfg k_none st pipe = transfer_key src k_none st pipe
  ∧ migrate_key src cfg k_err st pipe
    = Next (print (MsgErrorMigrating name e) st, pipe)
  ∧ ∀ keys, for_keys src cfg (k_err :: keys) st pipe
            = for_keys src cfg keys (print (MsgErrorMigrating name e) st) pipe.
Proof.
  intros Hlim Hnone Herr Hdec.
  assert (Hk : migrate_key src cfg k_err st pipe
               = Next (print (MsgErrorMigrating name e) st, pipe)).
  { unfold migrate_key, try_migrate_key. rewrite Herr. simpl. by rewrite Hdec. }
  split; [|split; [done|]].
  - rewrite (try_migrate_key_usage _ _ _ _ Hnone). simpl or_zero.
    destruct (Z.gtb_spec 0 (size_limit cfg)) as [Hgt|_]; [lia|done].
  - intros keys. simpl. by rewrite Hk.
Qed.

(** ** The deferred pass *)

Lemma process_large_key_events (ps : pstate) (ki : large_key) :
  pevents (process_large_key src ps ki) = pevents ps ++ entry_events src ki.
Proof.
  unfold process_large_key, entry_events.
  by destruct (try_large_key src (lk_name ki)) as [[ty t]|e].
Qed.

Lemma process_large_key_file (ps : pstate) (ki : large_key) :
  file (process_large_key src ps ki)
  = file ps ++ option_list (manifest_entry src ki).
Proof.
  unfold process_large_key, manifest_entry.
  destruct (try_large_key src (lk_name ki)) as [[ty t]|e]; simpl; [done|].
  by rewrite app_nil_r.
Qed.

Lemma foldl_process_large_key (entries : list large_key) (ps : pstate) :
  file (foldl (process_large_key src) ps entries)
    = file ps ++ omap (manifest_entry src) entries
  ∧ pevents (foldl (process_large_key src) ps entries)
    = pevents ps ++ concat (entry_events src <$> entries).
Proof.
  revert ps. induction entries as [|ki entries IH]; intros ps; simpl.
  - by rewrite !app_nil_r.
  - destruct (IH (process_large_key src ps ki)) as [-> ->].
    rewrite process_large_key_file, process_large_key_events, <- !app_assoc.
    split; [|done]. by destruct (manifest_entry src ki).
Qed.

Lemma process_large_keys_events (entries : list large_key) (f : string)
    (file0 : list manifest_line) :
  pevents (process_large_keys src env entries f file0) = thread_events src env entries f.
Proof.
  unfold process_large_keys, thread_events. destruct (open_error env f); [done|].
  simpl.
  destruct (foldl_process_large_key entries (PState [] [EvPrint MsgProcessing]))
    as [_ ->].
  simpl. done.
Qed.

Lemma process_large_keys_file (entries : list large_key) (f : string)
    (file0 : list manifest_line) :
  file (process_large_keys src env entries f file0) = manifest_of src env entries f file0.
Proof.
  unfold process_large_keys, manifest_of. destruct (open_error env f); [done|].
  simpl.
  by destruct (foldl_process_large_key entries (PState [] [EvPrint MsgProcessing]))
    as [-> _].
Qed.

Lemma entry_events_thread (ki : large_key) :
  Forall (λ ev, thread_event ev = true) (entry_events src ki).
Proof.
  unfold entry_events.
  destruct (try_large_key src (lk_name ki)) as [[ty t]|e]; repeat constructor.
Qed.

Lemma thread_events_thread (entries : list large_key) (f : string) :
  Forall (λ ev, thread_event ev = true) (thread_events src env entries f).
Proof.
  unfold thread_events. destruct (open_error env f); [repeat constructor|].
  apply Forall_app. split; [repeat constructor|].
  apply Forall_app. split; [|repeat constructor].
  induction entries as [|ki entries IH]; simpl; [constructor|].
  apply Forall_app. split; [apply entry_events_thread|done].
Qed.


(** ** One batch *)

Lemma classify_transfer (key : string) (c : restore_cmd) :
  classify src cfg key = Transfer c → rc_name c = key ∧ rc_replace c = true.
Proof.
  unfold classify, failed.
  destruct (src_memory_usage src key); [|by destruct (decode key)].
  destruct (_ >? _); [done|].
  destruct (src_dump src key); [|by destruct (decode key)].
  destruct (src_ttl src key); [|by destruct (decode key)].
  by intros [= <-].
Qed.

Lemma classify_deferred (key : string) (lk : large_key) :
  classify src cfg key = Deferred lk → lk_name lk = key.
Proof.
  unfold classify, failed.
  destruct (src_memory_usage src key); [|by destruct (decode key)].
  destruct (_ >? _); [by intros [= <-]|].
  destruct (src_dump src key); [|by destruct (decode key)].
  destruct (src_ttl src key); [done|by destruct (decode key)].
Qed.

Lemma decode_ok (b name : string) : decode b = Ok name → name = b.
Proof. unfold decode. destruct (utf8_valid _); congruence. Qed.

Lemma classify_skipped (key name : string) (e : exn) :
  classify src cfg key = Skipped name e → name = key.
Proof.
  assert (H : ∀ e0, failed key e0 = Skipped name e → name = key).
  { intros e0. unfold failed. destruct (decode key) eqn:Hd; [|done].
    intros [= <- _]. by apply decode_ok. }
  unfold classify.
  destruct (src_memory_usage src key); [|apply H].
  destruct (_ >? _); [done|].
  destruct (src_dump src key); [|apply H].
  destruct (src_ttl src key); [done|apply H].
Qed.

Lemma after_keys_nil (st : mstate) : after_keys src cfg [] st = st.
Proof. destruct st. unfold after_keys, skip_events. simpl. by rewrite !app_nil_r. Qed.

Lemma after_keys_cons (key : string) (keys : list string) (st : mstate) :
  after_keys src cfg (key :: keys) st =
  after_keys src cfg keys
    match classify src cfg key with
    | Deferred lk => append_large lk st
    | Skipped name e => print (MsgErrorMigrating name e) st
    | _ => st
    end.
Proof.
  unfold after_keys, skip_events, deferred_of, skipped_of. simpl.
  destruct (classify src cfg key); simpl; by rewrite <- ?app_assoc.
Qed.

Lemma transfers_of_cons (key : string) (keys : list string) :
  transfers_of src cfg (key :: keys) =
  match classify src cfg key with
  | Transfer c => c :: transfers_of src cfg keys
  | _ => transfers_of src cfg keys
  end.
Proof. unfold transfers_of. simpl. by destruct (classify src cfg key). Qed.

(** The loop over a batch whose turns do not crash. *)
Lemma for_keys_no_crash (keys : list string) (st : mstate) (pipe : list restore_cmd) :
  Forall (λ k, crashes src cfg k = false) keys →
  for_keys src cfg keys st pipe
  = Next (after_keys src cfg keys st, pipe ++ transfers_of src cfg keys).
Proof.
  intros Hall. revert st pipe.
  induction Hall as [|key keys Hk _ IH]; intros st pipe.
  - simpl. by rewrite after_keys_nil, app_nil_r.
  - cbn [for_keys]. rewrite migrate_key_classify, after_keys_cons, transfers_of_cons.
    unfold crashes in Hk.
    destruct (classify src cfg key); try done; rewrite IH; try done.
    by rewrite <- app_assoc.
Qed.

Lemma for_keys_next_inv (keys : list string) (st : mstate) (pipe : list restore_cmd)
    (r : mstate * list restore_cmd) :
  for_keys src cfg keys st pipe = Next r →
  Forall (λ k, crashes src cfg k = false) keys.
Proof.
  revert st pipe. induction keys as [|key keys IH]; intros st pipe; [constructor|].
  cbn [for_keys]. rewrite migrate_key_classify.
  destruct (classify src cfg key) eqn:Hc; try done;
    intros H; (constructor; [unfold crashes; by rewrite Hc|by eapply IH]).
Qed.

Lemma transfers_replace (keys : list string) :
  Forall (λ c, rc_replace c = true) (transfers_of src cfg keys).
Proof.
  induction keys as [|key keys IH]; [constructor|].
  rewrite transfers_of_cons. destruct (classify src cfg key) eqn:Hc; try done.
  constructor; [|done]. by apply (classify_transfer key).
Qed.

Lemma reply_none_has_value (c : restore_cmd) :
  reply_of rejects c = None → has_value c = true.
Proof.
  unfold reply_of, has_value. destruct (rejects c); [done|].
  by destruct (rc_value c).
Qed.

Lemma clean_transfers (keys : list string) :
  forallb (clean src rejects cfg) keys = true →
  Forall (λ c, reply_of rejects c = None) (transfers_of src cfg keys)
  ∧ Forall (λ k, crashes src cfg k = false) keys.
Proof.
  induction keys as [|key keys IH]; [by split; constructor|].
  cbn [forallb]. intros [Hk Hks]%andb_true_iff. destruct (IH Hks) as [IH1 IH2].
  rewrite transfers_of_cons. unfold clean in Hk. unfold crashes at 1.
  destruct (classify src cfg key) eqn:Hc; try done;
    (split; [|constructor; [unfold crashes; by rewrite Hc|done]]); try done.
  constructor; [|done]. by apply bool_decide_eq_true in Hk.
Qed.

Lemma transfers_clean (keys : list string) :
  Forall (λ c, reply_of rejects c = None) (transfers_of src cfg keys) →
  Forall (λ k, crashes src cfg k = false) keys →
  forallb (clean src rejects cfg) keys = true.
Proof.
  intros Hrep Hcr. induction Hcr as [|key keys Hk _ IH]; [done|].
  cbn [forallb]. rewrite transfers_of_cons in Hrep. unfold clean at 1.
  unfold crashes in Hk.
  destruct (classify src cfg key) eqn:Hc; try done; try by apply IH.
  inversion Hrep; subst. rewrite bool_decide_eq_true_2 by done. by apply IH.
Qed.

(** [execute] on a queue the target accepts entirely. *)
Lemma execute_accepted (pipe : list restore_cmd) (tgt : store) :
  Forall (λ c, rc_replace c = true) pipe →
  Forall (λ c, reply_of rejects c = None) pipe →
  execute rejects env pipe tgt
  = (apply_writes (omap write_of pipe) tgt, (λ c, EvRestore c None) <$> pipe, None).
Proof.
  intros Hrepl Hrep. unfold execute. rewrite (accepted_not_refused _ Hrep).
  assert (Hv : forallb has_value pipe = true).
  { clear -Hrep. induction Hrep as [|c cs Hc _ IH]; [done|].
    cbn [forallb]. by rewrite (reply_none_has_value c Hc), IH. }
  rewrite Hv, (run_commands_replace _ _ Hrepl).
  rewrite (proj2 (raised_replies pipe) Hrep).
  assert (He : (λ c, EvRestore c (reply_of rejects c)) <$> pipe
               = (λ c, EvRestore c None) <$> pipe).
  { clear -Hrep. induction Hrep as [|c cs Hc _ IH]; [done|].
    rewrite !fmap_cons. by rewrite Hc, IH. }
  assert (Hw : writes_of rejects pipe = omap write_of pipe).
  { clear -Hrep. unfold writes_of. induction Hrep as [|c cs Hc _ IH]; [done|].
    rewrite filter_cons, decide_True by done.
    change (omap write_of (c :: ?l)) with
      (match write_of c with Some w => w :: omap write_of l | None => omap write_of l end).
    by rewrite IH. }
  by rewrite He, Hw.
Qed.

(** A batch of clean keys goes through, and only such a batch does. *)
Lemma migrate_batch_clean (keys : list string) (st : mstate) :
  forallb (clean src rejects cfg) keys = true →
  migrate_batch src rejects cfg env keys st = Next (done_batch src cfg keys st).
Proof.
  intros Hclean. destruct (clean_transfers keys Hclean) as [Hrep Hcr].
  unfold migrate_batch. rewrite (for_keys_no_crash keys st [] Hcr).
  simpl app. rewrite (execute_accepted _ _ (transfers_replace keys) Hrep). done.
Qed.

Lemma migrate_batch_next_inv (keys : list string) (st st' : mstate) :
  migrate_batch src rejects cfg env keys st = Next st' →
  forallb (clean src rejects cfg) keys = true.
Proof.
  unfold migrate_batch.
  destruct (for_keys src cfg keys st []) as [[st1 pipe]|e st1] eqn:Hfor; [|done].
  pose proof (for_keys_next_inv _ _ _ _ Hfor) as Hcr.
  rewrite (for_keys_no_crash keys st [] Hcr) in Hfor. injection Hfor as <- <-.
  simpl app. unfold execute.
  destruct (forallb has_value (transfers_of src cfg keys)) eqn:Hv; [|done].
  destruct (existsb _ _) eqn:Hq.
  { pose proof (aborted_raises _ Hq) as Hne.
    by destruct (raised env (aborted rejects env _)). }
  rewrite (run_commands_replace _ _ (transfers_replace keys)).
  destruct (raised env _) eqn:Hfe; [done|]. intros _.
  apply transfers_clean; [|done]. by apply raised_replies.
Qed.

(** ** Reading a trace *)

Lemma restored_app (a b : list event) : restored (a ++ b) = restored a ++ restored b.
Proof. apply omap_app. Qed.

Lemma failures_app (a b : list event) : failures (a ++ b) = failures a ++ failures b.
Proof. apply omap_app. Qed.

Lemma scans_app (a b : list event) : scans (a ++ b) = scans a ++ scans b.
Proof. apply omap_app. Qed.

Lemma skip_events_read (keys : list string) :
  restored (skip_events src cfg keys) = []
  ∧ failures (skip_events src cfg keys) = skipped_of src cfg keys
  ∧ scans (skip_events src cfg keys) = [].
Proof.
  unfold skip_events. induction (skipped_of src cfg keys) as [|[n e] l IH]; [done|].
  destruct IH as (IH1 & IH2 & IH3). rewrite fmap_cons.
  change (restored (?x :: ?l)) with (restored ([x] ++ l)).
  change (failures (?x :: ?l)) with (failures ([x] ++ l)).
  change (scans (?x :: ?l)) with (scans ([x] ++ l)).
  rewrite restored_app, failures_app, scans_app, IH1, IH2, IH3. done.
Qed.

Lemma restore_events_read (cs : list restore_cmd) :
  restored ((λ c, EvRestore c None) <$> cs) = cs
  ∧ failures ((λ c, EvRestore c None) <$> cs) = []
  ∧ scans ((λ c, EvRestore c None) <$> cs) = [].
Proof.
  induction cs as [|c cs (IH1 & IH2 & IH3)]; [done|]. rewrite fmap_cons.
  change (restored (?x :: ?l)) with (restored ([x] ++ l)).
  change (failures (?x :: ?l)) with (failures ([x] ++ l)).
  change (scans (?x :: ?l)) with (scans ([x] ++ l)).
  rewrite restored_app, failures_app, scans_app, IH1, IH2, IH3. done.
Qed.

(** Events other than those of the scan loop do not show in the tallies. *)
Lemma other_events_read (l : list event) :
  Forall (λ ev, main_event ev = false) l →
  restored l = [] ∧ failures l = [] ∧ scans l = [].
Proof.
  induction 1 as [|ev l Hev _ (IH1 & IH2 & IH3)]; [done|].
  change (restored (?x :: ?l)) with (restored ([x] ++ l)).
  change (failures (?x :: ?l)) with (failures ([x] ++ l)).
  change (scans (?x :: ?l)) with (scans ([x] ++ l)).
  rewrite restored_app, failures_app, scans_app, IH1, IH2, IH3, !app_nil_r.
  by destruct ev as [[]| | | | | | |].
Qed.

Lemma thread_not_main (ev : event) : thread_event ev = true → main_event ev = false.
Proof. by destruct ev as [[]| | | | | | |]. Qed.

Lemma chain_keys (c : Z) (rs : list (Z * list string)) :
  snd <$> chain c rs = snd <$> rs.
Proof.
  revert c. induction rs as [|[next keys] rs IH]; intros c; [done|].
  cbn [chain]. rewrite !fmap_cons. by rewrite IH.
Qed.

(** ** The scan loop *)

Lemma step_state_spec (r : Z * list string) (st : mstate) :
  cursor (step_state src cfg r st) = r.1
  ∧ large_keys (step_state src cfg r st) = large_keys st ++ deferred_of src cfg r.2
  ∧ pbar (step_state src cfg r st) = (pbar st + length r.2)%nat
  ∧ target (step_state src cfg r st)
    = apply_writes (omap write_of (transfers_of src cfg r.2)) (target st)
  ∧ trace (step_state src cfg r st)
    = trace st ++ [EvScan (cursor st) (batch_size cfg) r.1 r.2]
        ++ skip_events src cfg r.2
        ++ ((λ c, EvRestore c None) <$> transfers_of src cfg r.2).
Proof.
  unfold step_state, done_batch, after_keys. simpl.
  repeat split. by rewrite <- !app_assoc.
Qed.

Lemma step_state_empty (next : Z) (st : mstate) :
  step_state src cfg (next, []) st
  = emit (EvScan (cursor st) (batch_size cfg) next []) (set_cursor next st).
Proof.
  destruct st. unfold step_state, done_batch, after_keys, emit, emits, set_cursor,
    set_target, pbar_update, skip_events. simpl.
  by rewrite !app_nil_r, Nat.add_0_r.
Qed.

(** One turn of [while True] on a batch of clean keys. *)
Lemma scan_loop_step (fuel : nat) (st : mstate) (next : Z) (keys : list string) :
  src_scan src (cursor st) (batch_size cfg) = Ok (next, keys) →
  keys ≠ [] →
  forallb (clean src rejects cfg) keys = true →
  scan_loop src rejects cfg env (S fuel) st
  = if next =? 0 then Finished (step_state src cfg (next, keys) st)
    else scan_loop src rejects cfg env fuel (step_state src cfg (next, keys) st).
Proof.
  intros Hscan Hne Hclean. cbn [scan_loop]. rewrite Hscan.
  destruct keys as [|k keys]; [done|].
  by rewrite (migrate_batch_clean _ _ Hclean).
Qed.

Lemma steps_spec (rs : list (Z * list string)) (st : mstate) :
  large_keys (steps src cfg rs st) = large_keys st ++ deferred_of src cfg (all_keys rs)
  ∧ pbar (steps src cfg rs st) = (pbar st + length (all_keys rs))%nat
  ∧ target (steps src cfg rs st)
    = apply_writes (omap write_of (transfers_of src cfg (all_keys rs))) (target st)
  ∧ restored (trace (steps src cfg rs st))
    = restored (trace st) ++ transfers_of src cfg (all_keys rs)
  ∧ failures (trace (steps src cfg rs st))
    = failures (trace st) ++ skipped_of src cfg (all_keys rs)
  ∧ scans (trace (steps src cfg rs st)) = scans (trace st) ++ chain (cursor st) rs
  ∧ (Forall (λ ev, main_event ev = true) (trace st) →
     Forall (λ ev, main_event ev = true) (trace (steps src cfg rs st))).
Proof.
  revert st. induction rs as [|[next keys] rs IH]; intros st.
  - unfold steps, all_keys, deferred_of, transfers_of, skipped_of. simpl.
    rewrite !app_nil_r, Nat.add_0_r. done.
  - change (steps src cfg ((next, keys) :: rs) st)
      with (steps src cfg rs (step_state src cfg (next, keys) st)).
    destruct (IH (step_state src cfg (next, keys) st))
      as (-> & -> & -> & -> & -> & -> & Hmain).
    destruct (step_state_spec (next, keys) st) as (-> & -> & -> & -> & Htr).
    rewrite Htr. cbn [fst snd].
    change (all_keys ((next, keys) :: rs)) with (keys ++ all_keys rs).
    unfold deferred_of, transfers_of, skipped_of.
    rewrite !omap_app, length_app, apply_writes_app.
    fold (deferred_of src cfg keys) (deferred_of src cfg (all_keys rs))
      (transfers_of src cfg keys) (transfers_of src cfg (all_keys rs))
      (skipped_of src cfg keys) (skipped_of src cfg (all_keys rs)).
    rewrite !restored_app, !failures_app, !scans_app.
    destruct (skip_events_read keys) as (-> & -> & ->).
    destruct (restore_events_read (transfers_of src cfg keys)) as (-> & -> & ->).
    simpl. rewrite !app_nil_r, <- !app_assoc. simpl.
    repeat split; [lia|].
    intros H. apply Hmain. rewrite Htr. cbn [fst snd].
    repeat (apply Forall_app; split); [done|by repeat constructor| |].
    + unfold skip_events. apply Forall_fmap. by apply Forall_true.
    + apply Forall_fmap. by apply Forall_true.
Qed.

(** The loop follows the replies of the source to the terminal cursor, as
    long as the batches are non-empty and their keys clean. *)
Lemma scan_loop_walk (n : nat) :
  ∀ (rs : list (Z * list string)) (st : mstate) (fuel : nat),
  keyspace_walk src cfg n (cursor st) = Some rs →
  Forall (λ r, r.2 ≠ []) rs →
  forallb (clean src rejects cfg) (all_keys rs) = true →
  (length rs ≤ fuel)%nat →
  scan_loop src rejects cfg env fuel st = Finished (steps src cfg rs st).
Proof.
  induction n as [|n IH]; intros rs st fuel Hwalk Hne Hclean Hfuel; [done|].
  cbn [keyspace_walk] in Hwalk.
  destruct (src_scan src (cursor st) (batch_size cfg)) as [[next keys]|e] eqn:Hscan;
    [|done].
  assert (Hhead : ∀ rs', rs = (next, keys) :: rs' →
            keys ≠ [] ∧ forallb (clean src rejects cfg) keys = true
            ∧ Forall (λ r, r.2 ≠ []) rs'
            ∧ forallb (clean src rejects cfg) (all_keys rs') = true
            ∧ ∃ fuel', fuel = S fuel' ∧ (length rs' ≤ fuel')%nat).
  { intros rs' ->. inversion Hne; subst.
    change (all_keys ((next, keys) :: rs')) with (keys ++ all_keys rs') in Hclean.
    rewrite forallb_app in Hclean. apply andb_true_iff in Hclean as [Hk Hrest].
    repeat split; try done.
    destruct fuel as [|fuel']; simpl in Hfuel; [lia|]. exists fuel'. split; [done|lia]. }
  destruct (Z.eqb_spec next 0) as [Hz|Hnz].
  - injection Hwalk as <-.
    destruct (Hhead [] eq_refl) as (Hk & Hc & _ & _ & fuel' & -> & _).
    rewrite (scan_loop_step _ _ _ _ Hscan Hk Hc).
    destruct (Z.eqb_spec next 0); done.
  - destruct (keyspace_walk src cfg n next) as [rs'|] eqn:Hrest; [|done].
    injection Hwalk as <-.
    destruct (Hhead rs' eq_refl) as (Hk & Hc & Hne' & Hc' & fuel' & -> & Hlen).
    rewrite (scan_loop_step _ _ _ _ Hscan Hk Hc).
    destruct (Z.eqb_spec next 0); [done|].
    change (steps src cfg ((next, keys) :: rs') st)
      with (steps src cfg rs' (step_state src cfg (next, keys) st)).
    apply IH; try done.
Qed.

(** A loop that finishes has gone through a list of replies whose keys were
    all clean. *)
Lemma scan_loop_finished_inv (fuel : nat) :
  ∀ (st st' : mstate),
  scan_loop src rejects cfg env fuel st = Finished st' →
  ∃ rs, st' = steps src cfg rs st
        ∧ forallb (clean src rejects cfg) (all_keys rs) = true.
Proof.
  induction fuel as [|fuel IH]; intros st st'; [done|].
  cbn [scan_loop].
  destruct (src_scan src (cursor st) (batch_size cfg)) as [[next keys]|e] eqn:Hscan;
    [|done].
  destruct keys as [|k keys].
  - intros [= <-]. exists [(next, [])]. split; [|done].
    symmetry. apply step_state_empty.
  - destruct (migrate_batch _ _ _ _ _ _) as [st1|e st1] eqn:Hb; [|done].
    pose proof (migrate_batch_next_inv _ _ _ Hb) as Hclean.
    rewrite (migrate_batch_clean _ _ Hclean) in Hb. injection Hb as <-.
    change (pbar_update _ _) with (step_state src cfg (next, k :: keys) st).
    destruct (next =? 0).
    + intros [= <-]. exists [(next, k :: keys)]. split; [done|].
      unfold all_keys. simpl. by rewrite app_nil_r.
    + intros H. destruct (IH _ _ H) as (rs & -> & Hrs).
      exists ((next, k :: keys) :: rs). split; [done|].
      change (all_keys ((next, k :: keys) :: rs)) with ((k :: keys) ++ all_keys rs).
      rewrite forallb_app. apply andb_true_iff. done.
Qed.

(** Every key of a batch that goes through ends on exactly one side. *)
Lemma keys_partition (keys : list string) :
  Forall (λ k, crashes src cfg k = false) keys →
  keys ≡ₚ (rc_name <$> transfers_of src cfg keys)
          ++ (lk_name <$> deferred_of src cfg keys)
          ++ (fst <$> skipped_of src cfg keys).
Proof.
  induction 1 as [|key keys Hk _ IH]; [done|].
  unfold transfers_of, deferred_of, skipped_of, crashes in *. cbn [omap list_omap].
  destruct (classify src cfg key) as [lk|c|name e|e] eqn:Hc; try done.
  - rewrite fmap_cons, (classify_deferred _ _ Hc).
    rewrite <- app_comm_cons, <- Permutation_middle. by constructor.
  - rewrite fmap_cons. destruct (classify_transfer _ _ Hc) as [-> _].
    simpl. by constructor.
  - rewrite fmap_cons. cbn [fst]. rewrite (classify_skipped _ _ _ Hc).
    rewrite app_assoc, <- Permutation_middle, <- app_assoc. by constructor.
Qed.

Lemma classify_raises (key name : string) (e : exn) :
  raises_in_try src cfg key e →
  decode key = Ok name →
  classify src cfg key = Skipped name e.
Proof.
  intros Hraise Hdec. unfold classify, failed.
  destruct Hraise as [->|(usage & -> & Hle & H)]; [by rewrite Hdec|].
  destruct (Z.gtb_spec (or_zero usage) (size_limit cfg)) as [Hgt|_]; [lia|].
  destruct H as [->|(v & -> & ->)]; by rewrite Hdec.
Qed.

(** X18: an exception raised for a key by the size query, the
    serialization or the lifetime query is caught and logged with the key's
    name (the name being UTF-8).  The log line is the only change of the
    program state, and nothing is queued for the key.  The loop then goes on
    with the remaining keys of the batch, exactly as it would have without
    the key, and, no other key of the batch ending the run, with the batches
    that follow. *)
Theorem X18_key_failure_isolated (pre post : list string) (key name : string)
    (e : exn) (st : mstate) (pipe : list restore_cmd) :
  raises_in_try src cfg key e →
  decode key = Ok name →
  let logged st :=
    MState (cursor st) (large_keys st) (target st) (pbar st)
           (trace st ++ [EvPrint (MsgErrorMigrating name e)]) in
  migrate_key src cfg key st pipe = Next (logged st, pipe)
  ∧ for_keys src cfg (pre ++ key :: post) st pipe
    = match for_keys src cfg pre st pipe with
      | Next (st', pipe') => for_keys src cfg post (logged st') pipe'
      | Abort e' st' => Abort e' st'
      end
  ∧ ∀ fuel next,
      src_scan src (cursor st) (batch_size cfg) = Ok (next, pre ++ key :: post) →
      forallb (clean src rejects cfg) (pre ++ post) = true →
      scan_loop src rejects cfg env (S fuel) st
      = (if next =? 0
         then Finished (step_state src cfg (next, pre ++ key :: post) st)
         else scan_loop src rejects cfg env fuel
                (step_state src cfg (next, pre ++ key :: post) st))
      ∧ (name, e) ∈ failures (trace (step_state src cfg (next, pre ++ key :: post) st)).
Proof.
  intros Hraise Hdec logged.
  pose proof (classify_raises _ _ _ Hraise Hdec) as Hclass.
  assert (Hk : ∀ st pipe, migrate_key src cfg key st pipe = Next (logged st, pipe)).
  { intros st0 pipe0. by rewrite migrate_key_classify, Hclass. }
  split; [apply Hk|]. split.
  - rewrite for_keys_app.
    destruct (for_keys src cfg pre st pipe) as [[st' pipe']|e' st']; [|done].
    cbn [for_keys]. by rewrite Hk.
  - intros fuel next Hscan Hclean. split.
    + apply scan_loop_step; [done|by destruct pre|].
      rewrite forallb_app in Hclean. apply andb_true_iff in Hclean as [Hpre Hpost].
      rewrite forallb_app. cbn [forallb]. rewrite Hpre, Hpost.
      unfold clean. by rewrite Hclass.
    + destruct (step_state_spec (next, pre ++ key :: post) st) as (_ & _ & _ & _ & ->).
      rewrite !failures_app. cbn [fst snd].
      destruct (skip_events_read (pre ++ key :: post)) as (_ & -> & _).
      rewrite !elem_of_app. right. right. left.
      apply list_elem_of_omap. exists key. split; [|by rewrite Hclass].
      rewrite elem_of_app. right. apply list_elem_of_here.
Qed.

(** ** The target over two runs *)

Lemma apply_writes_union (ws : list (string * (string * Z))) (tgt : store) :
  apply_writes ws tgt = list_to_map (reverse ws) ∪ tgt.
Proof.
  revert tgt. induction ws as [|[k v] ws IH]; intros tgt.
  - simpl. by rewrite (left_id_L ∅ (∪)).
  - change (apply_writes ((k, v) :: ws) tgt) with (apply_writes ws (<[k:=v]> tgt)).
    rewrite IH, reverse_cons, list_to_map_app, list_to_map_cons, list_to_map_nil.
    rewrite <- (assoc_L (∪)). f_equal.
    by rewrite <- insert_union_l, (left_id_L ∅ (∪)).
Qed.

(** Writing the same list twice is writing it once. *)
Lemma apply_writes_idem (ws : list (string * (string * Z))) (tgt : store) :
  apply_writes ws (apply_writes ws tgt) = apply_writes ws tgt.
Proof.
  rewrite !apply_writes_union, (assoc_L (∪)). f_equal. apply (idemp_L (∪)).
Qed.

(** The loop over a batch does not look at the target. *)
Lemma for_keys_target (t : store) (keys : list string) :
  ∀ (st : mstate) (pipe : list restore_cmd),
  for_keys src cfg keys (set_target t st) pipe
  = keys_set_target t (for_keys src cfg keys st pipe).
Proof.
  induction keys as [|key keys IH]; intros st pipe; [done|].
  cbn [for_keys]. rewrite !migrate_key_classify.
  destruct (classify src cfg key) as [lk|c|name e|e]; [| | |done].
  - exact (IH (append_large lk st) pipe).
  - exact (IH st (pipe ++ [c])).
  - exact (IH (print (MsgErrorMigrating name e) st) pipe).
Qed.

(** What a batch writes does not depend on what the target holds, since
    every command is sent with [REPLACE]. *)
Lemma migrate_batch_target (keys : list string) (st : mstate) :
  ∃ ws, ∀ t,
    migrate_batch src rejects cfg env keys (set_target t st)
    = flow_set_target (apply_writes ws t) (migrate_batch src rejects cfg env keys st).
Proof.
  unfold migrate_batch.
  destruct (for_keys src cfg keys st []) as [[st1 pipe]|e st1] eqn:Hfor.
  - pose proof (for_keys_next_inv _ _ _ _ Hfor) as Hcr.
    rewrite (for_keys_no_crash keys st [] Hcr) in Hfor. injection Hfor as <- <-.
    simpl app. pose proof (transfers_replace keys) as Hrepl.
    exists (if forallb has_value (transfers_of src cfg keys)
               && negb (existsb (refused_at_queue rejects env)
                          (transfers_of src cfg keys))
            then writes_of rejects (transfers_of src cfg keys) else []).
    intros t.
    rewrite for_keys_target, (for_keys_no_crash keys st [] Hcr).
    cbn [keys_set_target app]. unfold execute.
    destruct (forallb has_value (transfers_of src cfg keys)); [|done].
    destruct (existsb _ _); cbn [andb negb].
    { by destruct (raised env _). }
    rewrite !(run_commands_replace _ _ Hrepl).
    by destruct (raised env _).
  - exists []. intros t. by rewrite for_keys_target, Hfor.
Qed.

Lemma scan_loop_target (fuel : nat) :
  ∀ st, ∃ ws, ∀ t,
    scan_loop src rejects cfg env fuel (set_target t st)
    = outcome_set_target (apply_writes ws t) (scan_loop src rejects cfg env fuel st).
Proof.
  induction fuel as [|fuel IH]; intros st; [by exists []|].
  cbn [scan_loop]. change (cursor (set_target _ st)) with (cursor st).
  destruct (src_scan src (cursor st) (batch_size cfg)) as [[next keys]|e];
    [|by exists []].
  destruct keys as [|k keys]; [by exists []|].
  set (st1 := emit _ (set_cursor next st)).
  destruct (migrate_batch_target (k :: keys) st1) as [ws1 Hb].
  destruct (migrate_batch src rejects cfg env (k :: keys) st1) as [st2|e st2] eqn:Hbatch.
  - destruct (IH (pbar_update (length (k :: keys)) st2)) as [ws2 Hrest].
    destruct (next =? 0) eqn:Hnext.
    + exists ws1. intros t.
      change (emit ?ev (set_cursor next (set_target t st))) with (set_target t st1).
      by rewrite Hb.
    + exists (ws1 ++ ws2). intros t.
      change (emit ?ev (set_cursor next (set_target t st))) with (set_target t st1).
      rewrite Hb. cbn [flow_set_target].
      change (pbar_update ?n (set_target ?t' st2))
        with (set_target t' (pbar_update n st2)).
      by rewrite Hrest, apply_writes_app.
  - exists ws1. intros t.
    change (emit ?ev (set_cursor next (set_target t st))) with (set_target t st1).
    by rewrite Hb.
Qed.

(** The status of a run and the writes it makes are the same whatever the
    target holds at the start. *)
Lemma migrate_target (fuel : nat) :
  ∃ ws (s : option status), ∀ sched t file0,
    (λ r, (run_status r, target (run_state r)))
      <$> migrate_redis_keys src rejects cfg env fuel sched t file0
    = (λ s, (s, apply_writes ws t)) <$> s.
Proof.
  unfold migrate_redis_keys.
  destruct (src_dbsize src) as [total_keys|e].
  - destruct (scan_loop_target fuel (start_state cfg total_keys ∅)) as [ws Hloop].
    destruct (scan_loop src rejects cfg env fuel (start_state cfg total_keys ∅))
      as [st|e st|st] eqn:Hbase.
    + exists ws, (Some Done). intros sched t file0.
      change (print (MsgFound total_keys) _)
        with (set_target t (start_state cfg total_keys ∅)).
      by rewrite Hloop.
    + exists ws, (Some (Failed e)). intros sched t file0.
      change (print (MsgFound total_keys) _)
        with (set_target t (start_state cfg total_keys ∅)).
      by rewrite Hloop.
    + exists ws, None. intros sched t file0.
      change (print (MsgFound total_keys) _)
        with (set_target t (start_state cfg total_keys ∅)).
      by rewrite Hloop.
  - exists [], (Some (Failed e)). done.
Qed.

(** C9: every [RESTORE] the script queues carries [REPLACE], so the reply
    of the target to a command does not depend on the keys it already
    holds.  A second run over the same source, started on the target the
    first run left, ends as the first did and leaves the target as it
    was: each write replaces what the first run wrote. *)
Theorem C9_idempotent_rerun (fuel sched sched' : nat) (tgt0 : store)
    (file0 : list manifest_line) (r1 : run) :
  migrate_redis_keys src rejects cfg env fuel sched tgt0 file0 = Some r1 →
  (∀ key st pipe st' pipe',
     migrate_key src cfg key st pipe = Next (st', pipe') →
     Forall (λ c, rc_replace c = true) pipe →
     Forall (λ c, rc_replace c = true) pipe')
  ∧ ∃ r2,
      migrate_redis_keys src rejects cfg env fuel sched'
        (target (run_state r1)) (run_file r1) = Some r2
      ∧ run_status r2 = run_status r1
      ∧ target (run_state r2) = target (run_state r1).
Proof.
  intros Hrun. split.
  - intros key st pipe st' pipe'. rewrite migrate_key_classify.
    destruct (classify src cfg key) eqn:Hc; try done; intros [= <- <-]; try done.
    intros Hall. apply Forall_app. split; [done|].
    constructor; [|done]. by apply (classify_transfer key).
  - destruct (migrate_target fuel) as (ws & s & Hsame).
    pose proof (Hsame sched tgt0 file0) as H1. rewrite Hrun in H1.
    destruct s as [s|]; [|done]. injection H1 as Hs1 Ht1.
    pose proof (Hsame sched' (target (run_state r1)) (run_file r1)) as H2.
    destruct (migrate_redis_keys src rejects cfg env fuel sched' _ _) as [r2|]; [|done].
    injection H2 as Hs2 Ht2. exists r2. split; [done|]. split; [congruence|].
    by rewrite Ht2, Ht1, apply_writes_idem.
Qed.

(** ** Whole runs *)

Lemma fork_join_others (sched : nat) (child : list event) :
  Forall (λ ev, thread_event ev = true) child →
  Forall (λ ev, main_event ev = false)
    ([EvStart] ++ take sched child ++ [EvPrint MsgCompleted]
       ++ drop sched child ++ [EvJoin]).
Proof.
  intros Hchild.
  assert (Hc : Forall (λ ev, main_event ev = false) child).
  { eapply Forall_impl; [exact Hchild|]. apply thread_not_main. }
  repeat (apply Forall_app; split); try by repeat constructor.
  - by apply Forall_take.
  - by apply Forall_drop.
Qed.

Lemma fork_join_read (sched : nat) (child : list event) (st : mstate) :
  Forall (λ ev, thread_event ev = true) child →
  restored (trace (fork_join sched child st)) = restored (trace st)
  ∧ failures (trace (fork_join sched child st)) = failures (trace st)
  ∧ scans (trace (fork_join sched child st)) = scans (trace st).
Proof.
  intros Hchild. unfold fork_join, emits. cbn [trace].
  rewrite restored_app, failures_app, scans_app.
  destruct (other_events_read _ (fork_join_others sched child Hchild))
    as (-> & -> & ->).
  by rewrite !app_nil_r.
Qed.

(** A run that ends normally has gone through a list of replies whose keys
    were clean, and then through the deferred pass. *)
Lemma migrate_done_inv (fuel sched : nat) (tgt0 : store)
    (file0 : list manifest_line) (r : run) :
  migrate_redis_keys src rejects cfg env fuel sched tgt0 file0 = Some r →
  run_status r = Done →
  ∃ total_keys rs,
    src_dbsize src = Ok total_keys
    ∧ forallb (clean src rejects cfg) (all_keys rs) = true
    ∧ r = let st := steps src cfg rs (start_state cfg total_keys tgt0) in
          let ps := process_large_keys src env (large_keys st) (large_key_file cfg)
                      file0 in
          Run Done (fork_join sched (pevents ps) st) (file ps).
Proof.
  unfold migrate_redis_keys.
  destruct (src_dbsize src) as [total_keys|e]; [|by intros [= <-]].
  fold (start_state cfg total_keys tgt0).
  destruct (scan_loop src rejects cfg env fuel (start_state cfg total_keys tgt0))
    as [st|e st|st] eqn:Hloop; [|by intros [= <-]|done].
  destruct (scan_loop_finished_inv _ _ _ Hloop) as (rs & -> & Hclean).
  intros [= <-] _. by exists total_keys, rs.
Qed.

Lemma migrate_walk (n : nat) (rs : list (Z * list string)) (total_keys : Z)
    (fuel sched : nat) (tgt0 : store) (file0 : list manifest_line) :
  src_dbsize src = Ok total_keys →
  keyspace_walk src cfg n 0 = Some rs →
  Forall (λ r, r.2 ≠ []) rs →
  forallb (clean src rejects cfg) (all_keys rs) = true →
  (length rs ≤ fuel)%nat →
  migrate_redis_keys src rejects cfg env fuel sched tgt0 file0
  = Some (let st := steps src cfg rs (start_state cfg total_keys tgt0) in
          let ps := process_large_keys src env (large_keys st) (large_key_file cfg)
                      file0 in
          Run Done (fork_join sched (pevents ps) st) (file ps)).
Proof.
  intros Hdb Hwalk Hne Hclean Hfuel. unfold migrate_redis_keys. rewrite Hdb.
  fold (start_state cfg total_keys tgt0).
  by rewrite (scan_loop_walk n rs (start_state cfg total_keys tgt0) fuel).
Qed.

(** What can be read off the state a finished run leaves. *)
Lemma run_read (rs : list (Z * list string)) (total_keys : Z) (sched : nat)
    (tgt0 : store) (child : list event) :
  Forall (λ ev, thread_event ev = true) child →
  let st := fork_join sched child (steps src cfg rs (start_state cfg total_keys tgt0)) in
  scans (trace st) = chain 0 rs
  ∧ enumerated (trace st) = all_keys rs
  ∧ pbar st = length (all_keys rs)
  ∧ large_keys st = deferred_of src cfg (all_keys rs)
  ∧ restored (trace st) = transfers_of src cfg (all_keys rs)
  ∧ failures (trace st) = skipped_of src cfg (all_keys rs)
  ∧ target st = apply_writes (omap write_of (transfers_of src cfg (all_keys rs))) tgt0.
Proof.
  intros Hchild st.
  destruct (fork_join_read sched child
              (steps src cfg rs (start_state cfg total_keys tgt0)) Hchild)
    as (Hr & Hf & Hs).
  destruct (steps_spec rs (start_state cfg total_keys tgt0))
    as (Hlk & Hpb & Htg & Hre & Hfa & Hsc & _).
  assert (Hscans : scans (trace st) = chain 0 rs).
  { subst st. by rewrite Hs, Hsc. }
  split; [done|]. split.
  { unfold enumerated. rewrite Hscans, chain_keys. done. }
  subst st. rewrite Hr, Hf, Hre, Hfa.
  change (pbar (fork_join _ _ ?s)) with (pbar s).
  change (large_keys (fork_join _ _ ?s)) with (large_keys s).
  change (target (fork_join _ _ ?s)) with (target s).
  by rewrite Hpb, Hlk, Htg.
Qed.

(** The walk ends with the only reply that returns cursor 0. *)
Lemma walk_terminal (n : nat) :
  ∀ c rs, keyspace_walk src cfg n c = Some rs →
  ∃ c' keys, terminal (chain c rs) = [(c', 0, keys)]
             ∧ last (chain c rs) = Some (c', 0, keys).
Proof.
  induction n as [|n IH]; intros c rs; [done|]. cbn [keyspace_walk].
  destruct (src_scan src c (batch_size cfg)) as [[next keys]|e]; [|done].
  destruct (Z.eqb_spec next 0) as [->|Hnz].
  - intros [= <-]. by exists c, keys.
  - destruct (keyspace_walk src cfg n next) as [rs'|] eqn:Hrest; [|done].
    intros [= <-]. destruct (IH _ _ Hrest) as (c' & keys' & Hterm & Hlast).
    exists c', keys'. cbn [chain]. split.
    + unfold terminal in *. rewrite filter_cons, decide_False by done. done.
    + rewrite last_cons, Hlast. done.
Qed.

(** X19: the Enumerator is called first with cursor 0 and then with the
    cursor returned by the call before.  As long as every batch returned is
    non-empty, and no key aborts the run, the calls go on until a reply
    returns cursor 0 and stop there.  Every key of those replies is
    enumerated and classified: transferred, deferred or logged as failed.
    The terminal cursor is returned exactly once, by the last call. *)
Theorem X19_enumeration_to_terminal (n : nat) (rs : list (Z * list string))
    (total_keys : Z) (fuel sched : nat) (tgt0 : store)
    (file0 : list manifest_line) :
  src_dbsize src = Ok total_keys →
  keyspace_walk src cfg n 0 = Some rs →
  Forall (λ r, r.2 ≠ []) rs →
  forallb (clean src rejects cfg) (all_keys rs) = true →
  (length rs ≤ fuel)%nat →
  ∃ r, migrate_redis_keys src rejects cfg env fuel sched tgt0 file0 = Some r
    ∧ run_status r = Done
    ∧ scans (trace (run_state r)) = chain 0 rs
    ∧ (∃ c keys, terminal (scans (trace (run_state r))) = [(c, 0, keys)]
                 ∧ last (scans (trace (run_state r))) = Some (c, 0, keys))
    ∧ enumerated (trace (run_state r)) = all_keys rs
    ∧ large_keys (run_state r) = deferred_of src cfg (all_keys rs)
    ∧ restored (trace (run_state r)) = transfers_of src cfg (all_keys rs)
    ∧ failures (trace (run_state r)) = skipped_of src cfg (all_keys rs)
    ∧ all_keys rs ≡ₚ (rc_name <$> transfers_of src cfg (all_keys rs))
                     ++ (lk_name <$> deferred_of src cfg (all_keys rs))
                     ++ (fst <$> skipped_of src cfg (all_keys rs)).
Proof.
  intros Hdb Hwalk Hne Hclean Hfuel.
  eexists. split; [by eapply migrate_walk|]. cbn zeta. split; [done|].
  cbn [run_state].
  destruct (run_read rs total_keys sched tgt0 _
              (eq_ind_r (Forall _) (thread_events_thread _ _)
                 (process_large_keys_events
                    (large_keys (steps src cfg rs (start_state cfg total_keys tgt0)))
                    (large_key_file cfg) file0)))
    as (Hsc & Hen & _ & Hlk & Hre & Hfa & _).
  rewrite Hsc, Hen, Hlk, Hre, Hfa.
  repeat split; try done.
  - by apply (walk_terminal n).
  - apply keys_partition. by apply clean_transfers.
Qed.

(** C3 (amended): a run that reaches its end prints the fixed line
    [Key migration completed successfully!]; it prints no counts.  The
    counts can be read off the run, and they add up: the progress bar has
    advanced by the number of keys enumerated, and every enumerated key is
    in exactly one of: restored on the target, appended to the deferred
    list, logged as failed. *)
Theorem C3_every_key_accounted (fuel sched : nat) (tgt0 : store)
    (file0 : list manifest_line) (r : run) :
  migrate_redis_keys src rejects cfg env fuel sched tgt0 file0 = Some r →
  run_status r = Done →
  EvPrint MsgCompleted ∈ trace (run_state r)
  ∧ pbar (run_state r) = length (enumerated (trace (run_state r)))
  ∧ enumerated (trace (run_state r))
    ≡ₚ (rc_name <$> restored (trace (run_state r)))
       ++ (lk_name <$> large_keys (run_state r))
       ++ (fst <$> failures (trace (run_state r)))
  ∧ (let '(scanned, transferred, deferred, failed) := tally (run_state r) in
     scanned = (transferred + deferred + failed)%nat).
Proof.
  intros Hrun Hdone.
  destruct (migrate_done_inv _ _ _ _ _ Hrun Hdone) as (total & rs & _ & Hclean & ->).
  cbn zeta. cbn [run_state].
  destruct (run_read rs total sched tgt0 _
              (eq_ind_r (Forall _) (thread_events_thread _ _)
                 (process_large_keys_events
                    (large_keys (steps src cfg rs (start_state cfg total tgt0)))
                    (large_key_file cfg) file0)))
    as (_ & Hen & Hpb & Hlk & Hre & Hfa & _).
  pose proof (keys_partition _ (proj2 (clean_transfers _ Hclean))) as Hperm.
  split; [|split; [|split]].
  - unfold fork_join, emits. cbn [trace]. rewrite !elem_of_app.
    right. right. right. left. apply list_elem_of_here.
  - by rewrite Hpb, Hen.
  - by rewrite Hen, Hre, Hlk, Hfa.
  - unfold tally. rewrite Hpb, Hre, Hlk, Hfa.
    rewrite Hperm at 1. rewrite !length_app, !length_fmap. lia.
Qed.


End Properties.

(** * The properties on concrete runs *)

(** ** One key *)

Lemma C5_size_boundary_witness :
  src_memory_usage Faulty.src "at" = Ok (Some (size_limit Faulty.cfg))
  ∧ src_memory_usage Faulty.src "over" = Ok (Some (size_limit Faulty.cfg + 1))
  ∧ migrate_key Faulty.src Faulty.cfg "at" empty_state []
    = Next (empty_state, [RestoreCmd "at" 60000 (Some "dump:at") true])
  ∧ migrate_key Faulty.src Faulty.cfg "over" empty_state []
    = Next (MState 0 [LargeKey "over" (10 * MB + 1)] ∅ 0 [], []).
Proof.
  split; [reflexivity|]. split; [reflexivity|]. split.
  - destruct (C5_size_boundary Faulty.src Faulty.cfg "at" (size_limit Faulty.cfg)
                empty_state [] eq_refl) as (Hle & _ & _ & _).
    destruct (Hle (Z.le_refl _)) as (_ & _ & Hq).
    exact (Hq (Some "dump:at") 60 eq_refl eq_refl).
  - destruct (C5_size_boundary Faulty.src Faulty.cfg "over" (size_limit Faulty.cfg + 1)
                empty_state [] eq_refl) as (_ & _ & _ & Hover).
    exact (Hover eq_refl).
Defined.

Lemma C6_lifetime_normalized_witness :
  src_memory_usage Scenario.src "c" = Ok (Some MB)
  ∧ or_zero (Some MB) ≤ size_limit Scenario.cfg
  ∧ src_dump Scenario.src "c" = Ok (Some "dump:c")
  ∧ src_ttl Scenario.src "c" = Ok (-1)
  ∧ migrate_key Scenario.src Scenario.cfg "c" empty_state []
    = Next (empty_state, [RestoreCmd "c" 0 (Some "dump:c") true])
  ∧ (execute accept_all plain_env [RestoreCmd "c" 0 (Some "dump:c") true] ∅).1.2
    = [EvRestore (RestoreCmd "c" 0 (Some "dump:c") true) None].
Proof.
  assert (Hle : or_zero (Some MB) ≤ size_limit Scenario.cfg) by (by vm_compute).
  do 4 (split; [done|]).
  destruct (C6_lifetime_normalized Scenario.src accept_all Scenario.cfg plain_env "c"
              empty_state [] (Some MB) (Some "dump:c") (-1)
              eq_refl Hle eq_refl eq_refl) as (Hq & _ & _ & Hx).
  split; [exact Hq|exact (Hx ∅)].
Defined.

Lemma C10_missing_key_lifetime_witness :
  src_memory_usage Faulty.src "gone" = Ok (Some MB)
  ∧ or_zero (Some MB) ≤ size_limit Faulty.cfg
  ∧ src_dump Faulty.src "gone" = Ok (Some "dump:gone")
  ∧ src_ttl Faulty.src "gone" = Ok (-2)
  ∧ migrate_key Faulty.src Faulty.cfg "gone" empty_state []
    = Next (empty_state, [RestoreCmd "gone" (-2000) (Some "dump:gone") true])
  ∧ file (process_large_key Faulty.src (PState [] []) (LargeKey "gone" MB))
    = [ManifestLine "gone" "hash" (-2000) MB].
Proof.
  assert (Hle : or_zero (Some MB) ≤ size_limit Faulty.cfg) by (by vm_compute).
  do 4 (split; [done|]).
  destruct (C10_missing_key_lifetime Faulty.src Faulty.cfg "gone"
              empty_state [] (Some MB) (Some "dump:gone")
              eq_refl Hle eq_refl eq_refl) as (Hq & _ & Hm).
  split; [exact Hq|exact (Hm (PState [] []) MB "hash" eq_refl)].
Defined.

Lemma C4_size_query_failure_witness :
  0 ≤ size_limit Faulty.cfg
  ∧ src_memory_usage Faulty.src "nosize" = Ok None
  ∧ src_memory_usage Faulty.src "sizeerr" = Raise Faulty.timeout
  ∧ decode "sizeerr" = Ok "sizeerr"
  ∧ try_migrate_key Faulty.src Faulty.cfg "nosize" empty_state []
    = transfer_key Faulty.src "nosize" empty_state []
  ∧ migrate_key Faulty.src Faulty.cfg "sizeerr" empty_state []
    = Next (print (MsgErrorMigrating "sizeerr" Faulty.timeout) empty_state, [])
  ∧ ∀ keys, for_keys Faulty.src Faulty.cfg ("sizeerr" :: keys) empty_state []
            = for_keys Faulty.src Faulty.cfg keys
                (print (MsgErrorMigrating "sizeerr" Faulty.timeout) empty_state) [].
Proof.
  assert (Hlim : 0 ≤ size_limit Faulty.cfg) by (by vm_compute).
  do 4 (split; [done|]).
  exact (C4_size_query_failure Faulty.src Faulty.cfg "nosize" "sizeerr"
           Faulty.timeout "sizeerr" empty_state [] Hlim eq_refl eq_refl eq_refl).
Defined.

(** C4, as stated, fails: the size query of [a] times out, and [a] is
    skipped.  The run ends normally with [c] restored, nothing deferred,
    and [a] logged as failed. *)
Lemma C4_size_query_raise_skips_key :
  (λ r, (run_status r, rc_name <$> restored (trace (run_state r)),
         large_keys (run_state r), failures (trace (run_state r))))
    <$> migrate_redis_keys Faulty.src_size_timeout accept_all Faulty.cfg plain_env 1 0 ∅ []
  = Some (Done, ["c"], [], [("a", Faulty.timeout)]).
Proof. reflexivity. Qed.

Lemma X18_key_failure_isolated_witness :
  raises_in_try Faulty.src Faulty.cfg "dumperr" Faulty.timeout
  ∧ decode "dumperr" = Ok "dumperr"
  ∧ for_keys Faulty.src Faulty.cfg (["a"] ++ "dumperr" :: ["at"]) empty_state []
    = Next (MState 0 [] ∅ 0 [EvPrint (MsgErrorMigrating "dumperr" Faulty.timeout)],
            [RestoreCmd "a" 60000 (Some "dump:a") true;
             RestoreCmd "at" 60000 (Some "dump:at") true])
  ∧ ("dumperr", Faulty.timeout)
    ∈ failures (trace (step_state Faulty.src Faulty.cfg
                         (1, ["a"; "at"; "over"; "nosize"; "sizeerr"]
                               ++ "dumperr" :: ["ttlerr"])
                         empty_state)).
Proof.
  assert (Hr : raises_in_try Faulty.src Faulty.cfg "dumperr" Faulty.timeout).
  { right. exists (Some MB). split; [done|]. split; [by vm_compute|by left]. }
  split; [exact Hr|]. split; [done|]. split.
  - destruct (X18_key_failure_isolated Faulty.src accept_all Faulty.cfg plain_env
                ["a"] ["at"] "dumperr" "dumperr" Faulty.timeout empty_state []
                Hr eq_refl)
      as (_ & -> & _).
    reflexivity.
  - destruct (X18_key_failure_isolated Faulty.src accept_all Faulty.cfg plain_env
                ["a"; "at"; "over"; "nosize"; "sizeerr"] ["ttlerr"]
                "dumperr" "dumperr" Faulty.timeout empty_state [] Hr eq_refl)
      as (_ & _ & Hloop).
    exact (proj2 (Hloop 1%nat 1 eq_refl eq_refl)).
Defined.

(** C1: the run on two batches, [a] and [b], then [c], against a target
    that refuses the payload of [a].  A key that cannot be serialized is
    caught in the [try] of the key and leaves one log line.  The refusal of
    the target is not: it surfaces at [pipe.execute()], outside the [try] of
    the key, and the run ends with that error after the first batch; [b]
    alone is on the target, the batch with [c] is never requested, no
    failure is logged for [a] and the progress bar has not moved. *)
Lemma C1_write_rejection_aborts_run :
  migrate_key Faulty.src Faulty.cfg "dumperr" empty_state []
  = Next (MState 0 [] ∅ 0 [EvPrint (MsgErrorMigrating "dumperr" Faulty.timeout)], [])
  ∧ keyspace_walk Faulty.src_two Faulty.cfg 5 0 = Some [(1, ["a"; "b"]); (0, ["c"])]
  ∧ (λ r, (run_status r, enumerated (trace (run_state r)),
           (map_to_list (target (run_state r))).*1, pbar (run_state r),
           failures (trace (run_state r)), prints (trace (run_state r))))
      <$> migrate_redis_keys Faulty.src_two Faulty.rejects_a Faulty.cfg plain_env 5 0 ∅ []
    = Some (Failed Faulty.refused_a, ["a"; "b"], ["b"], 0%nat, [],
            [MsgConnectedSource "src.example" 6379;
             MsgConnectedTarget "dst.example" 6380;
             MsgFound 3;
             MsgRedisError Faulty.refused_a]).
Proof. repeat split; reflexivity. Qed.

(** Without [REPLACE] the target refuses to overwrite a key; with it, the
    key is overwritten. *)
Example restore_without_replace_is_refused :
  restore accept_all (RestoreCmd "a" 0 (Some "new") false) {["a" := ("old", 0)]}
  = Raise busy_key
  ∧ restore accept_all (RestoreCmd "a" 0 (Some "new") true) {["a" := ("old", 0)]}
    = Ok {["a" := ("new", 0)]}.
Proof. split; reflexivity. Qed.

(** The handler of a key failure raises in its turn when the key is not
    UTF-8: the run ends there. *)
Example undecodable_key_aborts_run :
  (λ r, (run_status r, enumerated (trace (run_state r)),
         (map_to_list (target (run_state r))).*1))
    <$> migrate_redis_keys Faulty.src_binary accept_all Faulty.cfg plain_env 5 0 ∅ []
  = Some (Failed UnicodeDecodeError, ["a"; String "255"%char ""], []).
Proof. reflexivity. Qed.

(** ** The deferred pass *)



(** ** Whole runs *)

Lemma X19_enumeration_to_terminal_witness :
  src_dbsize Faulty.src = Ok 8
  ∧ keyspace_walk Faulty.src Faulty.cfg 5 0 = Some Faulty.replies
  ∧ Forall (λ r, r.2 ≠ []) Faulty.replies
  ∧ forallb (clean Faulty.src accept_all Faulty.cfg) (all_keys Faulty.replies) = true
  ∧ (length Faulty.replies ≤ 5)%nat
  ∧ ∃ r, migrate_redis_keys Faulty.src accept_all Faulty.cfg plain_env 5 0 ∅ [] = Some r
    ∧ run_status r = Done
    ∧ scans (trace (run_state r)) = chain 0 Faulty.replies
    ∧ (∃ c keys, terminal (scans (trace (run_state r))) = [(c, 0, keys)]
                 ∧ last (scans (trace (run_state r))) = Some (c, 0, keys))
    ∧ enumerated (trace (run_state r)) = all_keys Faulty.replies
    ∧ large_keys (run_state r)
      = deferred_of Faulty.src Faulty.cfg (all_keys Faulty.replies)
    ∧ restored (trace (run_state r))
      = transfers_of Faulty.src Faulty.cfg (all_keys Faulty.replies)
    ∧ failures (trace (run_state r))
      = skipped_of Faulty.src Faulty.cfg (all_keys Faulty.replies)
    ∧ all_keys Faulty.replies
      ≡ₚ (rc_name <$> transfers_of Faulty.src Faulty.cfg (all_keys Faulty.replies))
         ++ (lk_name <$> deferred_of Faulty.src Faulty.cfg (all_keys Faulty.replies))
         ++ (fst <$> skipped_of Faulty.src Faulty.cfg (all_keys Faulty.replies)).
Proof.
  assert (Hne : Forall (λ r : Z * list string, r.2 ≠ []) Faulty.replies)
    by (by repeat constructor).
  assert (Hlen : (length Faulty.replies ≤ 5)%nat) by (simpl; lia).
  split; [reflexivity|]. split; [reflexivity|]. split; [exact Hne|].
  split; [reflexivity|]. split; [exact Hlen|].
  exact (X19_enumeration_to_terminal Faulty.src accept_all Faulty.cfg plain_env 5
           Faulty.replies 8 5 0 ∅ [] eq_refl eq_refl Hne eq_refl Hlen).
Defined.

(** The source returns its three keys, and the terminal cursor with them,
    in reply to the very first call: the run ends after that one call. *)
Example terminal_on_first_call :
  src_scan Scenario.src 0 (batch_size Scenario.cfg) = Ok (0, ["a"; "b"; "c"])
  ∧ (λ r, (run_status r, scans (trace (run_state r))))
      <$> migrate_redis_keys Scenario.src accept_all Scenario.cfg plain_env 1 0 ∅ []
    = Some (Done, [(0, 0, ["a"; "b"; "c"])]).
Proof. split; reflexivity. Qed.

(** C2: the run on a source whose first reply carries no key and cursor 1,
    and whose second reply would carry [a] and the terminal cursor.  The
    loop stops at the batch without keys, whatever the cursor returned with
    it: the second call is never made, [a] is neither enumerated nor
    transferred, and the run ends normally, with its completion line. *)
Lemma C2_empty_batch_stops_scan :
  keyspace_walk Faulty.src_sparse Faulty.cfg 5 0 = Some [(1, []); (0, ["a"])]
  ∧ (λ r, (run_status r, scans (trace (run_state r)),
           enumerated (trace (run_state r)),
           (map_to_list (target (run_state r))).*1,
           prints (trace (run_state r))))
      <$> migrate_redis_keys Faulty.src_sparse accept_all Faulty.cfg plain_env 5 0 ∅ []
    = Some (Done, [(0, 1, [])], [], [],
            [MsgConnectedSource "src.example" 6379;
             MsgConnectedTarget "dst.example" 6380;
             MsgFound 1; MsgCompleted; MsgProcessing;
             MsgLargeComplete "large_keys.txt"]).
Proof. split; reflexivity. Qed.

Lemma C3_every_key_accounted_witness :
  migrate_redis_keys Scenario.src accept_all Scenario.cfg plain_env 1 2 ∅ [] = Some Scenario.final
  ∧ run_status Scenario.final = Done
  ∧ tally (run_state Scenario.final) = (3, 2, 1, 0)%nat
  ∧ EvPrint MsgCompleted ∈ trace (run_state Scenario.final)
  ∧ pbar (run_state Scenario.final)
    = length (enumerated (trace (run_state Scenario.final)))
  ∧ enumerated (trace (run_state Scenario.final))
    ≡ₚ (rc_name <$> restored (trace (run_state Scenario.final)))
       ++ (lk_name <$> large_keys (run_state Scenario.final))
       ++ (fst <$> failures (trace (run_state Scenario.final)))
  ∧ (let '(scanned, transferred, deferred, failed) :=
       tally (run_state Scenario.final) in
     scanned = (transferred + deferred + failed)%nat).
Proof.
  split; [reflexivity|]. split; [reflexivity|]. split; [reflexivity|].
  exact (C3_every_key_accounted Scenario.src accept_all Scenario.cfg plain_env 1 2 ∅ []
           Scenario.final eq_refl eq_refl).
Defined.

(** C3, as stated, fails: nothing the script prints carries the counts.
    With a key [d] created after [dbsize] was read, the run transfers three
    keys instead of two and prints the very same lines, and it writes the
    very same manifest. *)
Lemma C3_report_has_no_counts :
  run_tally (migrate_redis_keys Scenario.src accept_all Scenario.cfg plain_env 1 0 ∅ [])
  = Some (3, 2, 1, 0)%nat
  ∧ run_tally (migrate_redis_keys Scenario.src_late_key accept_all Scenario.cfg plain_env 1 0 ∅ [])
    = Some (4, 3, 1, 0)%nat
  ∧ run_prints (migrate_redis_keys Scenario.src accept_all Scenario.cfg plain_env 1 0 ∅ [])
    = run_prints (migrate_redis_keys Scenario.src_late_key accept_all Scenario.cfg plain_env 1 0 ∅ [])
  ∧ run_prints (migrate_redis_keys Scenario.src accept_all Scenario.cfg plain_env 1 0 ∅ [])
    = Some [MsgConnectedSource "src.example" 6379;
            MsgConnectedTarget "dst.example" 6380;
            MsgFound 3; MsgCompleted; MsgProcessing;
            MsgCaptured "b" (20 * MB) "string";
            MsgLargeComplete "large_keys.txt"]
  ∧ run_file <$> migrate_redis_keys Scenario.src accept_all Scenario.cfg plain_env 1 0 ∅ []
    = run_file <$> migrate_redis_keys Scenario.src_late_key accept_all Scenario.cfg plain_env 1 0 ∅ [].
Proof. repeat split; reflexivity. Qed.



Lemma C9_idempotent_rerun_witness :
  migrate_redis_keys Scenario.src accept_all Scenario.cfg plain_env 1 2 ∅ [] = Some Scenario.final
  ∧ ∃ r2,
      migrate_redis_keys Scenario.src accept_all Scenario.cfg plain_env 1 0
        (target (run_state Scenario.final)) (run_file Scenario.final) = Some r2
      ∧ run_status r2 = run_status Scenario.final
      ∧ target (run_state r2) = target (run_state Scenario.final).
Proof.
  split; [reflexivity|].
  exact (proj2 (C9_idempotent_rerun Scenario.src accept_all Scenario.cfg plain_env 1 2 0 ∅ []
                  Scenario.final eq_refl)).
Defined.

(** * Every run, however it ends *)

Section Accounted.

Variable src : source.
Variable rejects : restore_cmd → option exn.
Variable cfg : config.
Variable env : environment.

(** ** What a classification says about the source *)

Lemma classify_deferred_inv (key : string) (lk : large_key) :
  classify src cfg key = Deferred lk →
  ∃ usage, src_memory_usage src key = Ok usage
           ∧ lk = LargeKey key (or_zero usage)
           ∧ size_limit cfg < or_zero usage.
Proof.
  unfold classify, failed.
  destruct (src_memory_usage src key) as [usage|e]; [|by destruct (decode key)].
  destruct (Z.gtb_spec (or_zero usage) (size_limit cfg)) as [Hgt|Hle].
  - intros [= <-]. by exists usage.
  - destruct (src_dump src key); [|by destruct (decode key)].
    destruct (src_ttl src key); [done|by destruct (decode key)].
Qed.

Lemma classify_transfer_inv (key : string) (c : restore_cmd) :
  classify src cfg key = Transfer c →
  ∃ usage v t,
    src_memory_usage src key = Ok usage
    ∧ or_zero usage ≤ size_limit cfg
    ∧ src_dump src key = Ok v
    ∧ src_ttl src key = Ok t
    ∧ c = RestoreCmd key (normalize_ttl t) v true.
Proof.
  unfold classify, failed.
  destruct (src_memory_usage src key) as [usage|e]; [|by destruct (decode key)].
  destruct (Z.gtb_spec (or_zero usage) (size_limit cfg)) as [Hgt|Hle]; [done|].
  destruct (src_dump src key) as [v|e]; [|by destruct (decode key)].
  destruct (src_ttl src key) as [t|e]; [|by destruct (decode key)].
  intros [= <-]. by exists usage, v, t.
Qed.

Lemma failed_inv (key : string) (e0 : exn) :
  (decode key = Ok key ∧ failed key e0 = Skipped key e0)
  ∨ (decode key = Raise UnicodeDecodeError ∧ failed key e0 = Crash UnicodeDecodeError).
Proof.
  unfold failed, decode. destruct (utf8_valid (bytes_of key)); [by left|by right].
Qed.

(** A key is skipped or crashes the handler only when its [try] raises. *)
Lemma classify_failed_inv (key : string) :
  (∀ name e, classify src cfg key = Skipped name e →
     name = key ∧ decode key = Ok key ∧ raises_in_try src cfg key e)
  ∧ (∀ e, classify src cfg key = Crash e →
       e = UnicodeDecodeError ∧ decode key = Raise UnicodeDecodeError
       ∧ ∃ e0, raises_in_try src cfg key e0).
Proof.
  assert (H : ∀ e0, raises_in_try src cfg key e0 →
            (∀ name e, failed key e0 = Skipped name e →
               name = key ∧ decode key = Ok key ∧ raises_in_try src cfg key e)
            ∧ (∀ e, failed key e0 = Crash e →
                 e = UnicodeDecodeError ∧ decode key = Raise UnicodeDecodeError
                 ∧ ∃ e0, raises_in_try src cfg key e0)).
  { intros e0 Hr. destruct (failed_inv key e0) as [[Hd ->]|[Hd ->]].
    - split; [|done]. by intros name e [= <- <-].
    - split; [done|]. intros e [= <-]. eauto. }
  unfold classify, raises_in_try in *.
  destruct (src_memory_usage src key) as [usage|e0]; [|apply H; by left].
  destruct (Z.gtb_spec (or_zero usage) (size_limit cfg)) as [Hgt|Hle]; [done|].
  destruct (src_dump src key) as [v|e0].
  - destruct (src_ttl src key) as [t|e0]; [done|].
    apply H. right. exists usage. repeat split; [done|]. right. by exists v.
  - apply H. right. exists usage. repeat split; [done|]. by left.
Qed.

(** ** States that come one after the other *)

Lemma grows_same (st st' : mstate) :
  trace st' = trace st → large_keys st' = large_keys st → target st' = target st →
  grows src rejects cfg st st'.
Proof.
  intros Ht Hl Hg. exists [], []. by rewrite Ht, Hl, Hg, !app_nil_r.
Qed.

Lemma grows_refl (st : mstate) : grows src rejects cfg st st.
Proof. by apply grows_same. Qed.

Lemma grows_trans (st1 st2 st3 : mstate) :
  grows src rejects cfg st1 st2 → grows src rejects cfg st2 st3 →
  grows src rejects cfg st1 st3.
Proof.
  intros (evs1 & lks1 & Ht1 & Hj1 & Hl1 & Hd1 & Hg1)
         (evs2 & lks2 & Ht2 & Hj2 & Hl2 & Hd2 & Hg2).
  exists (evs1 ++ evs2), (lks1 ++ lks2).
  rewrite Ht2, Ht1, Hl2, Hl1, Hg2, Hg1, !app_assoc.
  rewrite restored_app, omap_app, apply_writes_app.
  repeat split; try done; by apply Forall_app.
Qed.

(** Events that are accounted for and carry no accepted command. *)
Lemma grows_emits (evs : list event) (st : mstate) :
  Forall (justified src rejects cfg) evs → restored evs = [] →
  grows src rejects cfg st (emits evs st).
Proof.
  intros Hj Hr. exists evs, []. rewrite Hr. cbn.
  by rewrite app_nil_r.
Qed.

Lemma justified_main (ev : event) :
  justified src rejects cfg ev → main_event ev = true.
Proof. by destruct ev as [[]| | | | | | |]. Qed.

Lemma grows_after_keys (keys : list string) (st : mstate) :
  grows src rejects cfg st (after_keys src cfg keys st).
Proof.
  exists (skip_events src cfg keys), (deferred_of src cfg keys).
  destruct (skip_events_read src cfg keys) as (-> & _ & _).
  repeat split.
  - unfold skip_events. apply Forall_fmap, Forall_forall.
    intros [name e] (k & _ & Hk)%list_elem_of_omap. cbn.
    destruct (classify src cfg k) as [| |name' e'|] eqn:Hc; try done.
    injection Hk as -> ->.
    destruct (proj1 (classify_failed_inv k) _ _ Hc) as (-> & _). done.
  - unfold deferred_of. apply Forall_forall.
    intros lk (k & _ & Hk)%list_elem_of_omap.
    destruct (classify src cfg k) as [lk'| | |] eqn:Hc; try done.
    injection Hk as ->. unfold deferred_ok.
    by rewrite (classify_deferred src cfg _ _ Hc).
Qed.

(** The loop over a batch stops at the first key that crashes the handler. *)
Lemma for_keys_abort_inv (keys : list string) :
  ∀ (st : mstate) (pipe : list restore_cmd) (e : exn) (st' : mstate),
  for_keys src cfg keys st pipe = Abort e st' →
  ∃ pre k post,
    keys = pre ++ k :: post
    ∧ Forall (λ k, crashes src cfg k = false) pre
    ∧ classify src cfg k = Crash e
    ∧ st' = after_keys src cfg pre st.
Proof.
  induction keys as [|key keys IH]; intros st pipe e st'; [done|].
  cbn [for_keys]. rewrite migrate_key_classify.
  destruct (classify src cfg key) as [lk|c|name e0|e0] eqn:Hc.
  - intros (pre & k & post & -> & Hpre & Hk & ->)%IH.
    exists (key :: pre), k, post. rewrite after_keys_cons, Hc.
    repeat split; try done. constructor; [|done]. unfold crashes. by rewrite Hc.
  - intros (pre & k & post & -> & Hpre & Hk & ->)%IH.
    exists (key :: pre), k, post. rewrite after_keys_cons, Hc.
    repeat split; try done. constructor; [|done]. unfold crashes. by rewrite Hc.
  - intros (pre & k & post & -> & Hpre & Hk & ->)%IH.
    exists (key :: pre), k, post. rewrite after_keys_cons, Hc.
    repeat split; try done. constructor; [|done]. unfold crashes. by rewrite Hc.
  - intros [= <- <-]. exists [], key, keys. by rewrite after_keys_nil.
Qed.

Lemma restored_replies (pipe : list restore_cmd) :
  restored ((λ c, EvRestore c (reply_of rejects c)) <$> pipe)
  = filter (λ c, reply_of rejects c = None) pipe.
Proof.
  induction pipe as [|c pipe IH]; [done|].
  rewrite fmap_cons, filter_cons.
  change (restored (?x :: ?l)) with (restored ([x] ++ l)).
  rewrite restored_app, IH. unfold restored at 1. cbn.
  destruct (reply_of rejects c); [by rewrite decide_False|by rewrite decide_True].
Qed.

Lemma transfers_justified (keys : list string) :
  Forall (λ c, classify src cfg (rc_name c) = Transfer c) (transfers_of src cfg keys).
Proof.
  unfold transfers_of. apply Forall_forall.
  intros c (k & _ & Hk)%list_elem_of_omap.
  destruct (classify src cfg k) as [|c'| |] eqn:Hc; try done.
  injection Hk as ->. by destruct (classify_transfer src cfg _ _ Hc) as [-> _].
Qed.

(** A discarded transaction leaves no accepted command. *)
Lemma aborted_read (pipe : list restore_cmd) :
  restored (aborted rejects env pipe) = []
  ∧ failures (aborted rejects env pipe) = []
  ∧ scans (aborted rejects env pipe) = [].
Proof.
  unfold aborted. induction pipe as [|c cs (IH1 & IH2 & IH3)]; [done|].
  rewrite fmap_cons.
  change (restored (?x :: ?l)) with (restored ([x] ++ l)).
  change (failures (?x :: ?l)) with (failures ([x] ++ l)).
  change (scans (?x :: ?l)) with (scans ([x] ++ l)).
  rewrite restored_app, failures_app, scans_app, IH1, IH2, IH3, !app_nil_r.
  unfold refused_at_queue. destruct (rejects c); [by destruct (queue_time env c)|done].
Qed.

(** [execute] on the queue of a batch: what is sent is accounted for, and
    the target receives the accepted commands. *)
Lemma execute_transfers (keys : list string) (t tgt : store) (evs : list event)
    (err : option exn) :
  execute rejects env (transfers_of src cfg keys) t = (tgt, evs, err) →
  Forall (justified src rejects cfg) evs
  ∧ tgt = apply_writes (omap write_of (restored evs)) t.
Proof.
  unfold execute.
  destruct (forallb has_value (transfers_of src cfg keys)) eqn:Hv;
    [|by intros [= <- <- _]].
  pose proof (transfers_justified keys) as Hj. rewrite Forall_forall in Hj.
  rewrite forallb_forall in Hv.
  destruct (existsb _ _).
  - intros [= <- <- _]. destruct (aborted_read (transfers_of src cfg keys)) as (-> & _).
    split; [|done]. unfold aborted. apply Forall_fmap, Forall_forall. intros c Hc.
    unfold compose, refused_at_queue.
    assert (Hval : has_value c = true) by (apply Hv; by apply list_elem_of_In).
    destruct (rejects c) as [e|] eqn:Hrej; [destruct (queue_time env c)|];
      cbn [justified]; unfold reply_of; rewrite ?Hrej;
      repeat split; try done; by apply Hj.
  - rewrite (run_commands_replace _ _ _ (transfers_replace src cfg keys)).
    intros [= <- <- _]. rewrite restored_replies. split; [|done].
    apply Forall_fmap, Forall_forall. intros c Hc. cbn.
    split; [by apply Hj|]. split; [|done].
    apply Hv. by apply list_elem_of_In.
Qed.

Lemma migrate_batch_grows (keys : list string) (st : mstate) :
  match migrate_batch src rejects cfg env keys st with
  | Next st' => grows src rejects cfg st st'
  | Abort _ st' => grows src rejects cfg st st'
  end.
Proof.
  unfold migrate_batch.
  destruct (for_keys src cfg keys st []) as [[st1 pipe]|e st1] eqn:Hfor.
  - pose proof (for_keys_next_inv _ _ _ _ _ _ Hfor) as Hcr.
    rewrite (for_keys_no_crash _ _ keys st [] Hcr) in Hfor. injection Hfor as <- <-.
    cbn [app].
    destruct (execute rejects env (transfers_of src cfg keys)
                (target (after_keys src cfg keys st))) as [[tgt evs] err] eqn:Hex.
    destruct (execute_transfers _ _ _ _ _ Hex) as [Hj ->].
    assert (Hg : grows src rejects cfg st
              (emits evs (set_target
                 (apply_writes (omap write_of (restored evs))
                    (target (after_keys src cfg keys st)))
                 (after_keys src cfg keys st)))).
    { eapply grows_trans; [apply grows_after_keys|].
      exists evs, []. cbn. by rewrite app_nil_r. }
    by destruct err.
  - destruct (for_keys_abort_inv _ _ _ _ _ Hfor) as (pre & k & post & _ & _ & _ & ->).
    apply grows_after_keys.
Qed.

(** The scan loop only ever extends the trace and the deferred list, by
    what the source accounts for, and writes to the target what the target
    accepted. *)
Lemma scan_loop_grows (fuel : nat) :
  ∀ st, grows src rejects cfg st (outcome_state (scan_loop src rejects cfg env fuel st)).
Proof.
  induction fuel as [|fuel IH]; intros st; [apply grows_refl|].
  cbn [scan_loop].
  destruct (src_scan src (cursor st) (batch_size cfg)) as [[next keys]|e] eqn:Hscan;
    [|apply grows_refl].
  assert (Hg1 : grows src rejects cfg st
            (emit (EvScan (cursor st) (batch_size cfg) next keys) (set_cursor next st))).
  { exists [EvScan (cursor st) (batch_size cfg) next keys], []. cbn.
    rewrite app_nil_r. repeat split; try done. by repeat constructor. }
  destruct keys as [|k keys]; [exact Hg1|].
  set (st1 := emit _ (set_cursor next st)) in *.
  pose proof (migrate_batch_grows (k :: keys) st1) as Hb.
  destruct (migrate_batch src rejects cfg env (k :: keys) st1) as [st2|e st2].
  - assert (Hg2 : grows src rejects cfg st (pbar_update (length (k :: keys)) st2)).
    { eapply grows_trans; [exact Hg1|]. eapply grows_trans; [exact Hb|].
      by apply grows_same. }
    destruct (next =? 0); [exact Hg2|].
    eapply grows_trans; [exact Hg2|apply IH].
  - cbn [outcome_state]. by eapply grows_trans.
Qed.

(** ** Every run *)

Lemma handler_msg_other (e : exn) : main_event (EvPrint (handler_msg e)) = false.
Proof. by destruct e. Qed.

(** However a run ends, it has gone from the empty state to some state of
    the scan loop, and then either through the deferred pass or through one
    of the [except] clauses. *)
Lemma migrate_any (fuel sched : nat) (tgt0 : store) (file0 : list manifest_line)
    (r : run) :
  migrate_redis_keys src rejects cfg env fuel sched tgt0 file0 = Some r →
  ∃ st, grows src rejects cfg (MState 0 [] tgt0 0 []) st
    ∧ (r = Run Done
             (fork_join sched
                (thread_events src env (large_keys st) (large_key_file cfg)) st)
             (manifest_of src env (large_keys st) (large_key_file cfg) file0)
       ∨ ∃ e, r = fail e st file0).
Proof.
  unfold migrate_redis_keys.
  destruct (src_dbsize src) as [total_keys|e] eqn:Hdb.
  - fold (start_state cfg total_keys tgt0).
    assert (Hstart : grows src rejects cfg (MState 0 [] tgt0 0 [])
                       (start_state cfg total_keys tgt0)).
    { exists [EvPrint (MsgConnectedSource (source_host cfg) (source_port cfg));
              EvPrint (MsgConnectedTarget (target_host cfg) (target_port cfg));
              EvPrint (MsgFound total_keys)], [].
      repeat split; try done. by repeat constructor. }
    pose proof (scan_loop_grows fuel (start_state cfg total_keys tgt0)) as Hloop.
    destruct (scan_loop src rejects cfg env fuel (start_state cfg total_keys tgt0))
      as [st|e st|st]; [| |done].
    + cbn zeta. intros [= <-]. exists st. split; [by eapply grows_trans|]. left.
      by rewrite <- (process_large_keys_events src env _ _ file0),
        <- (process_large_keys_file src env (large_keys st) (large_key_file cfg)).
    + intros [= <-]. exists st. split; [by eapply grows_trans|]. right. by exists e.
  - intros [= <-]. eexists. split; [|right; by exists e].
    exists [EvPrint (MsgConnectedSource (source_host cfg) (source_port cfg));
            EvPrint (MsgConnectedTarget (target_host cfg) (target_port cfg))], [].
    repeat split; try done. by repeat constructor.
Qed.

(** What holds of the state any run leaves. *)
Lemma run_any_read (fuel sched : nat) (tgt0 : store) (file0 : list manifest_line)
    (r : run) :
  migrate_redis_keys src rejects cfg env fuel sched tgt0 file0 = Some r →
  target (run_state r)
    = apply_writes (omap write_of (restored (trace (run_state r)))) tgt0
  ∧ Forall (deferred_ok src cfg) (large_keys (run_state r))
  ∧ Forall (λ ev, main_event ev = true → justified src rejects cfg ev)
           (trace (run_state r)).
Proof.
  intros (st & (evs & lks & Ht & Hj & Hl & Hd & Hg) & Hr)%migrate_any.
  cbn in Ht, Hl, Hg. subst evs lks.
  assert (Hmain : Forall (λ ev, main_event ev = true → justified src rejects cfg ev)
                    (trace st)).
  { eapply Forall_impl; [exact Hj|]. done. }
  assert (Htail : ∀ tail, Forall (λ ev, main_event ev = false) tail →
            restored (trace st ++ tail) = restored (trace st)
            ∧ Forall (λ ev, main_event ev = true → justified src rejects cfg ev)
                (trace st ++ tail)).
  { intros tail Htail. rewrite restored_app.
    destruct (other_events_read tail Htail) as (-> & _). rewrite app_nil_r.
    split; [done|]. apply Forall_app. split; [done|].
    eapply Forall_impl; [exact Htail|]. intros ev Hf Ht'. congruence. }
  destruct Hr as [->|[e ->]]; cbn [run_state fail].
  - unfold fork_join, emits. cbn [target large_keys trace].
    destruct (Htail _ (fork_join_others sched _
                (thread_events_thread src env (large_keys st) (large_key_file cfg))))
      as [-> Hall].
    done.
  - unfold print, emit. cbn [target large_keys trace].
    destruct (Htail [EvPrint (handler_msg e)]) as [-> Hall].
    { repeat constructor. apply handler_msg_other. }
    done.
Qed.

(** ** Writes and lookups *)

Lemma apply_writes_snoc (ws : list (string * (string * Z))) (w : string * (string * Z))
    (tgt : store) :
  apply_writes (ws ++ [w]) tgt = <[w.1 := w.2]> (apply_writes ws tgt).
Proof. by rewrite apply_writes_app. Qed.

Lemma apply_writes_lookup_other (ws : list (string * (string * Z))) (tgt : store)
    (k : string) :
  k ∉ ws.*1 → apply_writes ws tgt !! k = tgt !! k.
Proof.
  induction ws as [|w ws IH] using rev_ind; [done|].
  rewrite fmap_app, not_elem_of_app, apply_writes_snoc. intros [Hws Hw].
  rewrite lookup_insert_ne; [by apply IH|].
  intros Heq. apply Hw. rewrite <- Heq. apply list_elem_of_here.
Qed.

Lemma apply_writes_keeps (ws : list (string * (string * Z))) (tgt : store)
    (k : string) :
  is_Some (tgt !! k) → is_Some (apply_writes ws tgt !! k).
Proof.
  intros Hk. induction ws as [|w ws IH] using rev_ind; [done|].
  rewrite apply_writes_snoc, lookup_insert_is_Some.
  destruct (decide (w.1 = k)); [by left|by right].
Qed.

(** When all the writes to a key agree, the key holds what they wrote. *)
Lemma apply_writes_lookup_agree (ws : list (string * (string * Z))) (tgt : store)
    (k : string) (v : string * Z) :
  (k, v) ∈ ws → (∀ v', (k, v') ∈ ws → v' = v) →
  apply_writes ws tgt !! k = Some v.
Proof.
  induction ws as [|[k' v'] ws IH] using rev_ind; [by intros ?%elem_of_nil|].
  intros Hin Hagree. rewrite apply_writes_snoc. cbn [fst snd].
  destruct (decide (k' = k)) as [->|Hne].
  - rewrite lookup_insert_eq. f_equal. apply Hagree.
    apply elem_of_app. right. apply list_elem_of_here.
  - rewrite lookup_insert_ne by done. apply IH.
    + apply elem_of_app in Hin as [Hin|Hin%list_elem_of_singleton]; [done|].
      congruence.
    + intros v'' Hv''. apply Hagree. apply elem_of_app. by left.
Qed.

Lemma restored_elem (tr : list event) (c : restore_cmd) :
  c ∈ restored tr ↔ EvRestore c None ∈ tr.
Proof.
  unfold restored. rewrite list_elem_of_omap. split.
  - intros (ev & Hev & Hc). destruct ev as [| |c' [e|]| | | | |]; try done.
    by injection Hc as ->.
  - intros Hev. by exists (EvRestore c None).
Qed.

Lemma write_names (cs : list restore_cmd) (k : string) :
  k ∈ (omap write_of cs).*1 → k ∈ rc_name <$> cs.
Proof.
  intros ([k' v] & -> & (c & Hc & Hw)%list_elem_of_omap)%list_elem_of_fmap.
  unfold write_of in Hw. destruct (rc_value c); [|done].
  injection Hw as <- _. cbn [fst]. by apply list_elem_of_fmap_2.
Qed.

Lemma trace_justified (fuel sched : nat) (tgt0 : store) (file0 : list manifest_line)
    (r : run) (ev : event) :
  migrate_redis_keys src rejects cfg env fuel sched tgt0 file0 = Some r →
  ev ∈ trace (run_state r) → main_event ev = true →
  justified src rejects cfg ev.
Proof.
  intros (_ & _ & Hall)%run_any_read Hin Hmain.
  rewrite Forall_forall in Hall. by apply Hall.
Qed.

Lemma sent_command (c : restore_cmd) (reply : option exn) :
  justified src rejects cfg (EvRestore c reply) →
  ∃ usage v t,
    src_memory_usage src (rc_name c) = Ok usage
    ∧ or_zero usage ≤ size_limit cfg
    ∧ src_dump src (rc_name c) = Ok (Some v)
    ∧ src_ttl src (rc_name c) = Ok t
    ∧ c = RestoreCmd (rc_name c) (normalize_ttl t) (Some v) true
    ∧ reply = rejects c.
Proof.
  intros (Hc & Hv & ->).
  destruct (classify_transfer_inv _ _ Hc) as (usage & v & t & Hu & Hle & Hd & Ht & Heq).
  unfold has_value in Hv. unfold reply_of.
  destruct (rc_value c) as [payload|] eqn:Hval; [|done].
  exists usage, payload, t.
  assert (v = Some payload) as -> by (rewrite Heq in Hval; done).
  repeat split; try done. by destruct (rejects c).
Qed.

Lemma target_unwritten (fuel sched : nat) (tgt0 : store)
    (file0 : list manifest_line) (r : run) (k : string) :
  migrate_redis_keys src rejects cfg env fuel sched tgt0 file0 = Some r →
  k ∉ rc_name <$> restored (trace (run_state r)) →
  target (run_state r) !! k = tgt0 !! k.
Proof.
  intros (-> & _ & _)%run_any_read Hk. apply apply_writes_lookup_other.
  intros Hin. apply Hk. by apply write_names.
Qed.

(** ** Properties of every run *)

(** X1: a run, however it ends, changes the target only at the keys of the
    [RESTORE] commands the target accepted: every other key holds what it
    held before the run, and no key that was on the target is removed. *)
Theorem X1_target_frame (fuel sched : nat) (tgt0 : store)
    (file0 : list manifest_line) (r : run) :
  migrate_redis_keys src rejects cfg env fuel sched tgt0 file0 = Some r →
  (∀ k, k ∉ rc_name <$> restored (trace (run_state r)) →
        target (run_state r) !! k = tgt0 !! k)
  ∧ (∀ k, is_Some (tgt0 !! k) → is_Some (target (run_state r) !! k)).
Proof.
  intros Hrun. split.
  - intros k. apply (target_unwritten _ _ _ _ _ _ Hrun).
  - destruct (run_any_read _ _ _ _ _ Hrun) as (-> & _ & _).
    intros k. apply apply_writes_keeps.
Qed.

(** X2: however a run ends, a key whose [RESTORE] the target accepted holds
    on the target the payload that [dump] returned for it and the lifetime
    that [ttl] returned, normalized. *)
Theorem X2_transferred_content (fuel sched : nat) (tgt0 : store)
    (file0 : list manifest_line) (r : run) (c : restore_cmd) :
  migrate_redis_keys src rejects cfg env fuel sched tgt0 file0 = Some r →
  c ∈ restored (trace (run_state r)) →
  ∃ v t,
    src_dump src (rc_name c) = Ok (Some v)
    ∧ src_ttl src (rc_name c) = Ok t
    ∧ target (run_state r) !! rc_name c = Some (v, normalize_ttl t).
Proof.
  intros Hrun Hc.
  assert (Hj : ∀ c', c' ∈ restored (trace (run_state r)) →
             justified src rejects cfg (EvRestore c' None)).
  { intros c' Hc'%restored_elem. by eapply trace_justified. }
  destruct (sent_command _ _ (Hj c Hc)) as (usage & v & t & _ & _ & Hd & Ht & Heq & _).
  exists v, t. split; [done|]. split; [done|].
  destruct (run_any_read _ _ _ _ _ Hrun) as (-> & _ & _).
  assert (Hw : write_of c = Some (rc_name c, (v, normalize_ttl t))).
  { rewrite Heq at 1. done. }
  apply apply_writes_lookup_agree.
  - apply list_elem_of_omap. by exists c.
  - intros v' (c' & Hc' & Hw')%list_elem_of_omap.
    destruct (Hj c' Hc') as (Hcl' & _). destruct (Hj c Hc) as (Hcl & _).
    assert (rc_name c' = rc_name c) as Hname.
    { unfold write_of in Hw'. destruct (rc_value c'); [|done]. by injection Hw' as -> _. }
    rewrite Hname, Hcl in Hcl'. injection Hcl' as ->. congruence.
Qed.

(** X3: every [RESTORE] a run sends, accepted or refused, is for a key
    whose size is unknown or within the limit; it carries [REPLACE], the
    payload [dump] returned and the lifetime [ttl] returned, normalized. *)
Theorem X3_sent_commands (fuel sched : nat) (tgt0 : store)
    (file0 : list manifest_line) (r : run) (c : restore_cmd) (reply : option exn) :
  migrate_redis_keys src rejects cfg env fuel sched tgt0 file0 = Some r →
  EvRestore c reply ∈ trace (run_state r) →
  ∃ usage v t,
    src_memory_usage src (rc_name c) = Ok usage
    ∧ or_zero usage ≤ size_limit cfg
    ∧ src_dump src (rc_name c) = Ok (Some v)
    ∧ src_ttl src (rc_name c) = Ok t
    ∧ c = RestoreCmd (rc_name c) (normalize_ttl t) (Some v) true
    ∧ reply = rejects c.
Proof.
  intros Hrun Hin. apply sent_command. by eapply trace_justified.
Qed.

(** X4: a run logs [Error migrating key] only for a key whose name is
    UTF-8 and for which the size query, the serialization or the lifetime
    query raised the exception logged. *)
Theorem X4_logged_failures_are_real (fuel sched : nat) (tgt0 : store)
    (file0 : list manifest_line) (r : run) (name : string) (e : exn) :
  migrate_redis_keys src rejects cfg env fuel sched tgt0 file0 = Some r →
  EvPrint (MsgErrorMigrating name e) ∈ trace (run_state r) →
  raises_in_try src cfg name e ∧ decode name = Ok name.
Proof.
  intros Hrun Hin.
  pose proof (trace_justified _ _ _ _ _ _ Hrun Hin eq_refl) as Hj. cbn in Hj.
  by destruct (proj1 (classify_failed_inv name) _ _ Hj) as (_ & Hd & Hr).
Qed.

(** X5: however a run ends, every entry of the deferred list records the
    size the source reported for the key, and that size is above the
    limit. *)
Theorem X5_deferred_entries_sized (fuel sched : nat) (tgt0 : store)
    (file0 : list manifest_line) (r : run) (lk : large_key) :
  migrate_redis_keys src rejects cfg env fuel sched tgt0 file0 = Some r →
  lk ∈ large_keys (run_state r) →
  ∃ usage,
    src_memory_usage src (lk_name lk) = Ok usage
    ∧ lk_size lk = or_zero usage
    ∧ size_limit cfg < lk_size lk.
Proof.
  intros (_ & Hd & _)%run_any_read Hin.
  rewrite Forall_forall in Hd.
  destruct (classify_deferred_inv _ _ (Hd lk Hin)) as (usage & Hu & Heq & Hlt).
  exists usage. rewrite Heq at 2 3. done.
Qed.

(** X6: a key of the deferred list is never sent to the target: no
    [RESTORE] of the run names it, and the target holds for it what it held
    before the run. *)
Theorem X6_deferred_keys_untouched (fuel sched : nat) (tgt0 : store)
    (file0 : list manifest_line) (r : run) (lk : large_key) :
  migrate_redis_keys src rejects cfg env fuel sched tgt0 file0 = Some r →
  lk ∈ large_keys (run_state r) →
  (∀ c reply, EvRestore c reply ∈ trace (run_state r) → rc_name c ≠ lk_name lk)
  ∧ target (run_state r) !! lk_name lk = tgt0 !! lk_name lk.
Proof.
  intros Hrun Hin.
  assert (Hd : deferred_ok src cfg lk).
  { destruct (run_any_read _ _ _ _ _ Hrun) as (_ & Hd & _).
    rewrite Forall_forall in Hd. by apply Hd. }
  assert (Hsent : ∀ c reply, EvRestore c reply ∈ trace (run_state r) →
                    rc_name c ≠ lk_name lk).
  { intros c reply Hc Hname.
    destruct (trace_justified _ _ _ _ _ _ Hrun Hc eq_refl) as (Hcl & _).
    unfold deferred_ok in Hd. congruence. }
  split; [exact Hsent|].
  apply (target_unwritten _ _ _ _ _ _ Hrun).
  intros (c & Hname & Hc%restored_elem)%list_elem_of_fmap.
  by apply (Hsent c None).
Qed.

(** X7: a run that ends in one of the [except] clauses never starts the
    thread: the manifest file is left as it was, the trace holds no step of
    the deferred pass and no completion line, and its last line is the
    message of the clause. *)
Theorem X7_failed_run_skips_deferred_pass (fuel sched : nat) (tgt0 : store)
    (file0 : list manifest_line) (r : run) (e : exn) :
  migrate_redis_keys src rejects cfg env fuel sched tgt0 file0 = Some r →
  run_status r = Failed e →
  run_file r = file0
  ∧ last (trace (run_state r)) = Some (EvPrint (handler_msg e))
  ∧ Forall (λ ev, thread_event ev = false ∧ ev ≠ EvStart ∧ ev ≠ EvJoin
                  ∧ ev ≠ EvPrint MsgCompleted)
           (trace (run_state r)).
Proof.
  intros (st & (evs & lks & Ht & Hj & _) & [->|[e' ->]])%migrate_any; [done|].
  intros [= ->]. cbn in Ht. subst evs. cbn.
  split; [done|]. split; [apply last_snoc|].
  apply Forall_app. split.
  - eapply Forall_impl; [exact Hj|]. intros ev Hev%justified_main.
    by destruct ev as [[]| | | | | | |].
  - repeat constructor; by destruct e.
Qed.

(** ** The thread and the coordinator *)

Lemma fork_join_perm (sched : nat) (child : list event) (st : mstate) :
  trace (fork_join sched child st)
  ≡ₚ trace st ++ EvStart :: EvPrint MsgCompleted :: child ++ [EvJoin].
Proof.
  unfold fork_join, emits. cbn [trace]. apply Permutation_app_head.
  cbn [app]. constructor.
  rewrite <- (take_drop sched child) at 3.
  rewrite <- app_assoc. symmetry. apply Permutation_middle.
Qed.

(** X8: the place where the scheduler lets the coordinator print its
    completion line changes the order of the trace and nothing else: the
    status, the target, the deferred list, the progress bar and the manifest
    are the same for every schedule, and the traces are permutations of one
    another. *)
Theorem X8_schedule_changes_order_only (fuel sched sched' : nat) (tgt0 : store)
    (file0 : list manifest_line) (r : run) :
  migrate_redis_keys src rejects cfg env fuel sched tgt0 file0 = Some r →
  ∃ r', migrate_redis_keys src rejects cfg env fuel sched' tgt0 file0 = Some r'
    ∧ run_status r' = run_status r
    ∧ target (run_state r') = target (run_state r)
    ∧ large_keys (run_state r') = large_keys (run_state r)
    ∧ pbar (run_state r') = pbar (run_state r)
    ∧ run_file r' = run_file r
    ∧ trace (run_state r') ≡ₚ trace (run_state r).
Proof.
  unfold migrate_redis_keys.
  destruct (src_dbsize src) as [total_keys|e].
  - destruct (scan_loop src rejects cfg env fuel _) as [st|e st|st]; [| |done].
    + cbn zeta. intros [= <-]. eexists. split; [done|]. cbn [run_status run_state run_file].
      repeat split. by rewrite !fork_join_perm.
    + intros [= <-]. eexists. by split.
  - intros [= <-]. eexists. by split.
Qed.

(** ** The manifest *)





(** ** Order *)

Lemma classified_names_sublist (keys : list string) :
  (rc_name <$> transfers_of src cfg keys) `sublist_of` keys
  ∧ (lk_name <$> deferred_of src cfg keys) `sublist_of` keys
  ∧ (fst <$> skipped_of src cfg keys) `sublist_of` keys.
Proof.
  unfold transfers_of, deferred_of, skipped_of.
  induction keys as [|key keys (IH1 & IH2 & IH3)]; [by repeat constructor|].
  cbn [omap list_omap].
  destruct (classify src cfg key) as [lk|c|name e|e] eqn:Hc.
  - rewrite fmap_cons, (classify_deferred src cfg _ _ Hc).
    repeat split; by constructor.
  - rewrite fmap_cons. destruct (classify_transfer src cfg _ _ Hc) as [-> _].
    repeat split; by constructor.
  - rewrite fmap_cons. cbn [fst]. rewrite (classify_skipped src cfg _ _ _ Hc).
    repeat split; by constructor.
  - repeat split; by constructor.
Qed.

(** X10: in a run that reaches its end, the keys are restored in the order
    in which the source enumerated them, batch after batch; so are the
    entries of the deferred list and the logged failures. *)
Theorem X10_enumeration_order_kept (fuel sched : nat) (tgt0 : store)
    (file0 : list manifest_line) (r : run) :
  migrate_redis_keys src rejects cfg env fuel sched tgt0 file0 = Some r →
  run_status r = Done →
  (rc_name <$> restored (trace (run_state r)))
    `sublist_of` enumerated (trace (run_state r))
  ∧ (lk_name <$> large_keys (run_state r))
      `sublist_of` enumerated (trace (run_state r))
  ∧ (fst <$> failures (trace (run_state r)))
      `sublist_of` enumerated (trace (run_state r)).
Proof.
  intros Hrun Hdone.
  destruct (migrate_done_inv _ _ _ _ _ _ _ _ _ Hrun Hdone) as (total & rs & _ & _ & ->).
  cbn zeta. cbn [run_state].
  destruct (run_read src cfg rs total sched tgt0 _
              (eq_ind_r (Forall _) (thread_events_thread src env _ _)
                 (process_large_keys_events src env
                    (large_keys (steps src cfg rs (start_state cfg total tgt0)))
                    (large_key_file cfg) file0)))
    as (_ & -> & _ & -> & -> & -> & _).
  apply classified_names_sublist.
Qed.

(** ** How the scan ends *)

Lemma walk_outcome_cons (r : Z * list string) (rs : list (Z * list string))
    (w : walk_end) (st : mstate) :
  walk_outcome src cfg (r :: rs) w st
  = walk_outcome src cfg rs w (step_state src cfg r st).
Proof. by destruct w. Qed.

(** The scan loop follows the walk, as long as the keys are clean. *)
Lemma scan_loop_loop_walk (n : nat) :
  ∀ (rs : list (Z * list string)) (w : walk_end) (st : mstate) (fuel : nat),
  loop_walk src cfg n (cursor st) = Some (rs, w) →
  forallb (clean src rejects cfg) (all_keys rs) = true →
  (length rs < fuel)%nat →
  scan_loop src rejects cfg env fuel st = walk_outcome src cfg rs w st.
Proof.
  induction n as [|n IH]; intros rs w st fuel Hwalk Hclean Hfuel; [done|].
  destruct fuel as [|fuel]; [lia|].
  cbn [loop_walk] in Hwalk.
  destruct (src_scan src (cursor st) (batch_size cfg)) as [[next keys]|e] eqn:Hscan.
  - destruct keys as [|k keys].
    + injection Hwalk as <- <-. cbn [scan_loop]. rewrite Hscan.
      cbn [walk_outcome app steps foldl]. by rewrite step_state_empty.
    + destruct (Z.eqb_spec next 0) as [Hz|Hnz].
      * injection Hwalk as <- <-.
        rewrite (scan_loop_step src rejects cfg env _ _ _ _ Hscan); [|done|].
        -- by destruct (Z.eqb_spec next 0).
        -- unfold all_keys in Hclean. cbn in Hclean. by rewrite app_nil_r in Hclean.
      * destruct (loop_walk src cfg n next) as [[rs' w']|] eqn:Hrest; [|done].
        injection Hwalk as <- <-. cbn [fst snd] in *.
        change (all_keys ((next, k :: keys) :: rs'))
          with ((k :: keys) ++ all_keys rs') in Hclean.
        rewrite forallb_app in Hclean. apply andb_true_iff in Hclean as [Hk Hrs].
        rewrite (scan_loop_step src rejects cfg env _ _ _ _ Hscan); [|done|done].
        destruct (Z.eqb_spec next 0); [done|].
        rewrite walk_outcome_cons. apply IH; [|done|cbn in Hfuel; lia].
        by destruct (step_state_spec src cfg (next, k :: keys) st) as (-> & _).
  - injection Hwalk as <- <-. cbn [scan_loop]. by rewrite Hscan.
Qed.

Lemma all_keys_snoc_empty (rs : list (Z * list string)) (next : Z) :
  all_keys (rs ++ [(next, [])]) = all_keys rs.
Proof.
  unfold all_keys. rewrite fmap_app, concat_app. cbn. by rewrite app_nil_r.
Qed.

Lemma steps_snoc_cursor (rs : list (Z * list string)) (r : Z * list string)
    (st : mstate) :
  cursor (steps src cfg (rs ++ [r]) st) = r.1.
Proof.
  unfold steps. rewrite foldl_app. cbn [foldl].
  by destruct (step_state_spec src cfg r (foldl (λ st r, step_state src cfg r st) st rs))
    as (-> & _).
Qed.

(** X11: a reply of [scan] without keys ends the scan, whatever cursor
    comes with it.  The run then goes through the deferred pass and ends
    normally, with the cursor left where the source had it; the keys of the
    batches received so far are the only ones enumerated. *)
Theorem X11_empty_batch_ends_scan (n : nat) (rs : list (Z * list string))
    (next total_keys : Z) (fuel sched : nat) (tgt0 : store)
    (file0 : list manifest_line) :
  src_dbsize src = Ok total_keys →
  loop_walk src cfg n 0 = Some (rs, EndEmpty next) →
  forallb (clean src rejects cfg) (all_keys rs) = true →
  (length rs < fuel)%nat →
  ∃ r, migrate_redis_keys src rejects cfg env fuel sched tgt0 file0 = Some r
    ∧ run_status r = Done
    ∧ cursor (run_state r) = next
    ∧ scans (trace (run_state r)) = chain 0 (rs ++ [(next, [])])
    ∧ enumerated (trace (run_state r)) = all_keys rs
    ∧ restored (trace (run_state r)) = transfers_of src cfg (all_keys rs)
    ∧ large_keys (run_state r) = deferred_of src cfg (all_keys rs).
Proof.
  intros Hdb Hwalk Hclean Hfuel. unfold migrate_redis_keys. rewrite Hdb.
  fold (start_state cfg total_keys tgt0).
  rewrite (scan_loop_loop_walk n rs (EndEmpty next)); [|done|done|done].
  cbn [walk_outcome]. eexists. split; [done|]. cbn [run_status run_state].
  split; [done|].
  destruct (run_read src cfg (rs ++ [(next, [])]) total_keys sched tgt0 _
              (eq_ind_r (Forall _) (thread_events_thread src env _ _)
                 (process_large_keys_events src env
                    (large_keys (steps src cfg (rs ++ [(next, [])])
                                   (start_state cfg total_keys tgt0)))
                    (large_key_file cfg) file0)))
    as (Hsc & Hen & _ & Hlk & Hre & _ & _).
  rewrite all_keys_snoc_empty in Hen, Hlk, Hre.
  split; [|done].
  change (cursor (fork_join _ _ ?s)) with (cursor s). apply steps_snoc_cursor.
Qed.

(** X12: when [scan] raises, the run ends in the [except] clause of the
    exception, and what was done before stays done: the keys of the batches
    received before the failing call are on the target, or on the deferred
    list, and the progress bar has advanced by their number.  The deferred
    pass does not run and the manifest file is left as it was. *)
Theorem X12_scan_failure_keeps_earlier_batches (n : nat)
    (rs : list (Z * list string)) (e : exn) (total_keys : Z) (fuel sched : nat)
    (tgt0 : store) (file0 : list manifest_line) :
  src_dbsize src = Ok total_keys →
  loop_walk src cfg n 0 = Some (rs, EndError e) →
  forallb (clean src rejects cfg) (all_keys rs) = true →
  (length rs < fuel)%nat →
  ∃ r, migrate_redis_keys src rejects cfg env fuel sched tgt0 file0 = Some r
    ∧ run_status r = Failed e
    ∧ target (run_state r)
      = apply_writes (omap write_of (transfers_of src cfg (all_keys rs))) tgt0
    ∧ restored (trace (run_state r)) = transfers_of src cfg (all_keys rs)
    ∧ large_keys (run_state r) = deferred_of src cfg (all_keys rs)
    ∧ pbar (run_state r) = length (all_keys rs)
    ∧ run_file r = file0.
Proof.
  intros Hdb Hwalk Hclean Hfuel. unfold migrate_redis_keys. rewrite Hdb.
  fold (start_state cfg total_keys tgt0).
  rewrite (scan_loop_loop_walk n rs (EndError e)); [|done|done|done].
  cbn [walk_outcome]. eexists. split; [done|].
  cbn [fail run_status run_state run_file].
  destruct (steps_spec src cfg rs (start_state cfg total_keys tgt0))
    as (Hlk & Hpb & Htg & Hre & _).
  unfold print, emit. cbn [target large_keys pbar trace].
  rewrite restored_app, Hre, Htg, Hlk, Hpb.
  destruct (other_events_read [EvPrint (handler_msg e)]) as (-> & _).
  { repeat constructor. apply handler_msg_other. }
  by rewrite app_nil_r.
Qed.

(** ** Batches that end the run *)

Lemma sent_app (a b : list event) : sent (a ++ b) = sent a ++ sent b.
Proof. apply omap_app. Qed.

Lemma sent_skip_events (keys : list string) : sent (skip_events src cfg keys) = [].
Proof.
  unfold skip_events. induction (skipped_of src cfg keys) as [|f l IH]; [done|].
  rewrite fmap_cons. change (sent (?x :: ?l)) with (sent ([x] ++ l)).
  by rewrite sent_app, IH.
Qed.

Lemma sent_replies (pipe : list restore_cmd) :
  sent ((λ c, EvRestore c (reply_of rejects c)) <$> pipe) = pipe.
Proof.
  induction pipe as [|c pipe IH]; [done|].
  rewrite fmap_cons. change (sent (?x :: ?l)) with (sent ([x] ++ l)).
  by rewrite sent_app, IH.
Qed.

Lemma classify_crash (key : string) (e0 : exn) :
  raises_in_try src cfg key e0 →
  decode key = Raise UnicodeDecodeError →
  classify src cfg key = Crash UnicodeDecodeError.
Proof.
  intros Hraise Hdec. unfold classify, failed.
  destruct Hraise as [->|(usage & -> & Hle & H)]; [by rewrite Hdec|].
  destruct (Z.gtb_spec (or_zero usage) (size_limit cfg)) as [Hgt|_]; [lia|].
  destruct H as [->|(v & -> & ->)]; by rewrite Hdec.
Qed.

Lemma classify_transfer_intro (key : string) (usage : option Z)
    (v : option string) (t : Z) :
  src_memory_usage src key = Ok usage →
  or_zero usage ≤ size_limit cfg →
  src_dump src key = Ok v →
  src_ttl src key = Ok t →
  classify src cfg key = Transfer (RestoreCmd key (normalize_ttl t) v true).
Proof.
  intros Hu Hle Hd Ht. unfold classify. rewrite Hu.
  destruct (Z.gtb_spec (or_zero usage) (size_limit cfg)) as [Hgt|_]; [lia|].
  by rewrite Hd, Ht.
Qed.

(** The first refusal of a transaction that runs, and of one that is
    discarded. *)
Lemma first_refused_first (number : nat) (pre post : list restore_cmd)
    (c : restore_cmd) (e : exn) :
  Forall (λ c, reply_of rejects c = None) pre →
  reply_of rejects c = Some e →
  first_refused number ((λ c, EvRestore c (reply_of rejects c)) <$> pre ++ c :: post)
  = Some ((number + length pre)%nat, c, e).
Proof.
  intros Hpre Hc. revert number. induction Hpre as [|c' pre Hc' _ IH]; intros number.
  - cbn. by rewrite Hc, Nat.add_0_r.
  - cbn. rewrite Hc'. cbn in IH. rewrite IH. do 3 f_equal. lia.
Qed.

Lemma first_refused_aborted (number : nat) (pre post : list restore_cmd)
    (c : restore_cmd) (e : exn) :
  Forall (λ c, refused_at_queue rejects env c = false) pre →
  refused_at_queue rejects env c = true →
  rejects c = Some e →
  first_refused number (aborted rejects env (pre ++ c :: post))
  = Some ((number + length pre)%nat, c, e).
Proof.
  intros Hpre Hq Hc. unfold aborted. revert number.
  induction Hpre as [|c' pre Hc' _ IH]; intros number.
  - cbn. by rewrite Hq, Hc, Nat.add_0_r.
  - cbn. rewrite Hc'. cbn in IH. rewrite IH. do 3 f_equal. lia.
Qed.

Lemma existsb_refused (pre post : list restore_cmd) (c : restore_cmd) :
  refused_at_queue rejects env c = true →
  existsb (refused_at_queue rejects env) (pre ++ c :: post) = true.
Proof.
  intros Hq. rewrite existsb_app. cbn [existsb]. rewrite Hq.
  by rewrite orb_true_r.
Qed.

(** X13: when a key of a batch fails and its name is not UTF-8, the error
    handler raises while formatting the log line, and the run leaves the
    scan loop with [UnicodeDecodeError].  The commands queued for the keys
    of the batch are dropped with the pipeline: nothing of the batch is
    sent, the target is as it was and the progress bar has not moved. *)
Theorem X13_undecodable_failure_drops_batch (fuel : nat) (st : mstate) (next : Z)
    (keys : list string) (key : string) (e0 : exn) :
  src_scan src (cursor st) (batch_size cfg) = Ok (next, keys) →
  key ∈ keys →
  raises_in_try src cfg key e0 →
  decode key = Raise UnicodeDecodeError →
  ∃ st', scan_loop src rejects cfg env (S fuel) st = Raised UnicodeDecodeError st'
    ∧ sent (trace st') = sent (trace st)
    ∧ target st' = target st
    ∧ pbar st' = pbar st.
Proof.
  intros Hscan Hin Hraise Hdec. cbn [scan_loop]. rewrite Hscan.
  destruct keys as [|k keys]; [by apply elem_of_nil in Hin|].
  set (st1 := emit _ (set_cursor next st)).
  pose proof (classify_crash _ _ Hraise Hdec) as Hcrash.
  unfold migrate_batch.
  destruct (for_keys src cfg (k :: keys) st1 []) as [[st2 pipe]|e st2] eqn:Hfor.
  - pose proof (for_keys_next_inv _ _ _ _ _ _ Hfor) as Hcr.
    rewrite Forall_forall in Hcr. specialize (Hcr key Hin).
    unfold crashes in Hcr. by rewrite Hcrash in Hcr.
  - destruct (for_keys_abort_inv _ _ _ _ _ Hfor) as (pre & k' & post & _ & _ & Hk' & ->).
    destruct (proj2 (classify_failed_inv k') _ Hk') as (-> & _).
    eexists. split; [done|]. unfold after_keys, st1. cbn.
    by rewrite !sent_app, sent_skip_events, !app_nil_r.
Qed.

(** X14: when the target refuses a command of a batch, [pipe.execute()]
    raises the first refusal, as redis-py words it, and the run leaves the
    scan loop with it, the progress bar not having moved.  What the batch
    leaves on the target depends on when the refusal came.  When no command
    was refused before it ran, the whole batch has run: the commands the
    target accepted are written, the refused ones are not.  When a command
    was refused already when it was queued, the transaction was discarded:
    the refusal is in the trace, no command was accepted, and the target is
    as it was before the batch. *)
Theorem X14_refused_write_ends_run_after_batch (fuel : nat) (st : mstate) (next : Z)
    (keys : list string) (pre post : list restore_cmd) (c : restore_cmd) (e : exn) :
  src_scan src (cursor st) (batch_size cfg) = Ok (next, keys) →
  Forall (λ k, crashes src cfg k = false) keys →
  forallb has_value (transfers_of src cfg keys) = true →
  transfers_of src cfg keys = pre ++ c :: post →
  rejects c = Some e →
  (existsb (refused_at_queue rejects env) (transfers_of src cfg keys) = false →
   Forall (λ c, reply_of rejects c = None) pre →
   ∃ st', scan_loop src rejects cfg env (S fuel) st
          = Raised (pipeline_error env (S (length pre)) c e) st'
     ∧ sent (trace st') = sent (trace st) ++ transfers_of src cfg keys
     ∧ restored (trace st')
       = restored (trace st)
         ++ filter (λ c, reply_of rejects c = None) (transfers_of src cfg keys)
     ∧ target st'
       = apply_writes (writes_of rejects (transfers_of src cfg keys)) (target st)
     ∧ pbar st' = pbar st)
  ∧ (refused_at_queue rejects env c = true →
     Forall (λ c, refused_at_queue rejects env c = false) pre →
     ∃ st', scan_loop src rejects cfg env (S fuel) st
            = Raised (pipeline_error env (S (length pre)) c e) st'
       ∧ EvRestore c (Some e) ∈ trace st'
       ∧ restored (trace st') = restored (trace st)
       ∧ target st' = target st
       ∧ pbar st' = pbar st).
Proof.
  intros Hscan Hcr Hv Hsplit Hc.
  assert (Hloop : scan_loop src rejects cfg env (S fuel) st
            = match execute rejects env (transfers_of src cfg keys) (target st) with
              | (tgt, evs, err) =>
                let st1 := MState next (large_keys st ++ deferred_of src cfg keys) tgt
                             (pbar st)
                             (trace st ++ [EvScan (cursor st) (batch_size cfg) next keys]
                                ++ skip_events src cfg keys ++ evs) in
                match err with
                | Some e' => Raised e' st1
                | None => if next =? 0
                          then Finished (pbar_update (length keys) st1)
                          else scan_loop src rejects cfg env fuel
                                 (pbar_update (length keys) st1)
                end
              end).
  { cbn [scan_loop]. rewrite Hscan.
    destruct keys as [|k keys]; [by destruct pre|].
    unfold migrate_batch. rewrite (for_keys_no_crash src cfg _ _ [] Hcr).
    cbn [app].
    change (target (after_keys src cfg (k :: keys) ?s)) with (target s).
    change (target (emit ?ev (set_cursor next st))) with (target st).
    destruct (execute rejects env (transfers_of src cfg (k :: keys)) (target st))
      as [[tgt evs] err].
    unfold after_keys, emits, emit, set_target, set_cursor.
    cbn [trace target pbar large_keys cursor]. rewrite <- !app_assoc.
    by destruct err. }
  rewrite Hloop. unfold execute. rewrite Hv. split.
  - intros Hq Hpre. rewrite Hq.
    rewrite (run_commands_replace _ _ _ (transfers_replace src cfg keys)).
    assert (Hrep : reply_of rejects c = Some e) by (unfold reply_of; by rewrite Hc).
    assert (Hfr : raised env ((λ c, EvRestore c (reply_of rejects c))
                                <$> transfers_of src cfg keys)
                  = Some (pipeline_error env (S (length pre)) c e)).
    { unfold raised. by rewrite Hsplit, (first_refused_first 1 pre post c e Hpre Hrep). }
    rewrite Hfr.
    eexists. split; [done|]. cbn [trace target pbar].
    rewrite !sent_app, !restored_app, sent_skip_events, sent_replies, restored_replies.
    destruct (skip_events_read src cfg keys) as (-> & _).
    by rewrite ?app_nil_r.
  - intros Hq Hpre.
    assert (Hex : existsb (refused_at_queue rejects env) (transfers_of src cfg keys)
                  = true) by (rewrite Hsplit; by apply existsb_refused).
    assert (Hfr : raised env (aborted rejects env (transfers_of src cfg keys))
                  = Some (pipeline_error env (S (length pre)) c e)).
    { unfold raised. by rewrite Hsplit, (first_refused_aborted 1 pre post c e Hpre Hq Hc). }
    rewrite Hex, Hfr.
    eexists. split; [done|]. cbn [trace target pbar].
    rewrite !restored_app.
    destruct (aborted_read (transfers_of src cfg keys)) as (-> & _).
    destruct (skip_events_read src cfg keys) as (-> & _).
    rewrite !app_nil_r. repeat split; try done.
    rewrite !elem_of_app. right. right. right.
    rewrite Hsplit. unfold aborted. rewrite fmap_app, fmap_cons, Hq, Hc.
    rewrite elem_of_app. right. apply list_elem_of_here.
Qed.

(** X15: a key that disappears from the source between [scan] and [dump]
    has no payload, and the script queues its [RESTORE] all the same.
    [pipe.execute()] then raises before anything is sent: the run leaves
    the scan loop with that error, none of the keys of the batch is
    transferred and the progress bar has not moved. *)
Theorem X15_vanished_key_ends_run (fuel : nat) (st : mstate) (next : Z)
    (keys : list string) (key : string) (usage : option Z) (t : Z) :
  src_scan src (cursor st) (batch_size cfg) = Ok (next, keys) →
  Forall (λ k, crashes src cfg k = false) keys →
  key ∈ keys →
  src_memory_usage src key = Ok usage →
  or_zero usage ≤ size_limit cfg →
  src_dump src key = Ok None →
  src_ttl src key = Ok t →
  ∃ st', scan_loop src rejects cfg env (S fuel) st = Raised data_error st'
    ∧ sent (trace st') = sent (trace st)
    ∧ target st' = target st
    ∧ pbar st' = pbar st.
Proof.
  intros Hscan Hcr Hin Hu Hle Hd Ht. cbn [scan_loop]. rewrite Hscan.
  destruct keys as [|k keys]; [by apply elem_of_nil in Hin|].
  set (st1 := emit _ (set_cursor next st)).
  unfold migrate_batch. rewrite (for_keys_no_crash src cfg _ st1 [] Hcr).
  cbn [app]. unfold execute.
  destruct (forallb has_value (transfers_of src cfg (k :: keys))) eqn:Hv.
  - rewrite forallb_forall in Hv.
    specialize (Hv (RestoreCmd key (normalize_ttl t) None true)).
    assert (Hfalse : has_value (RestoreCmd key (normalize_ttl t) None true) = true);
      [|done].
    apply Hv, list_elem_of_In, list_elem_of_omap. exists key. split; [done|].
    by rewrite (classify_transfer_intro _ _ _ _ Hu Hle Hd Ht).
  - eexists. split; [done|].
    unfold after_keys, st1, emits, emit, set_target, set_cursor.
    cbn [trace target pbar large_keys cursor].
    by rewrite !sent_app, sent_skip_events, !app_nil_r.
Qed.

(** X16: a remaining lifetime of 0 seconds is normalized to 0, the very
    value that stands for no expiration: the [RESTORE] queued for a key
    with under a second to live is the one queued for a key that never
    expires.  No lifetime other than -1 and 0 is normalized to 0, every
    normalized lifetime is a whole number of seconds, and a negative
    lifetime other than -1 stays negative. *)
Theorem X16_zero_lifetime_reads_as_no_expiry (key : string) (st : mstate)
    (pipe : list restore_cmd) (usage : option Z) (v : option string) :
  src_memory_usage src key = Ok usage →
  or_zero usage ≤ size_limit cfg →
  src_dump src key = Ok v →
  src_ttl src key = Ok 0 →
  migrate_key src cfg key st pipe = Next (st, pipe ++ [RestoreCmd key 0 v true])
  ∧ (∀ t, normalize_ttl t = 0 ↔ t = -1 ∨ t = 0)
  ∧ (∀ t, normalize_ttl t `mod` 1000 = 0)
  ∧ (∀ t, normalize_ttl t < 0 ↔ t < -1).
Proof.
  intros Hu Hle Hd Ht. split; [|split; [|split]].
  - rewrite migrate_key_classify.
    by rewrite (classify_transfer_intro _ _ _ _ Hu Hle Hd Ht).
  - intros t. unfold normalize_ttl. destruct (Z.eqb_spec t (-1)); lia.
  - intros t. unfold normalize_ttl. destruct (Z.eqb_spec t (-1)); [done|].
    apply Z_mod_mult.
  - intros t. unfold normalize_ttl. destruct (Z.eqb_spec t (-1)); lia.
Qed.

(** ** A scan that does not end *)

Lemma scan_loop_never_ends (fuel : nat) :
  (∀ st c, cursor st = c → ∃ next keys,
     src_scan src c (batch_size cfg) = Ok (next, keys)
     ∧ next ≠ 0 ∧ keys ≠ []
     ∧ forallb (clean src rejects cfg) keys = true) →
  ∀ st, ∃ st', scan_loop src rejects cfg env fuel st = OutOfFuel st'.
Proof.
  intros Hsrc. induction fuel as [|fuel IH]; intros st; [by exists st|].
  destruct (Hsrc st (cursor st) eq_refl) as (next & keys & Hscan & Hnz & Hne & Hclean).
  rewrite (scan_loop_step src rejects cfg env _ _ _ _ Hscan Hne Hclean).
  destruct (Z.eqb_spec next 0); [done|]. apply IH.
Qed.

(** X17: the scan loop has no bound of its own: it ends only when the
    source returns cursor 0, returns a batch without keys, or something
    raises.  On a source that keeps returning a non-zero cursor and a
    non-empty batch of keys that transfer cleanly, a run does not end,
    however many calls it is given. *)
Theorem X17_scan_relies_on_source_to_end (total_keys : Z) :
  src_dbsize src = Ok total_keys →
  (∀ c, ∃ next keys,
     src_scan src c (batch_size cfg) = Ok (next, keys)
     ∧ next ≠ 0 ∧ keys ≠ []
     ∧ forallb (clean src rejects cfg) keys = true) →
  ∀ fuel sched tgt0 file0,
    migrate_redis_keys src rejects cfg env fuel sched tgt0 file0 = None.
Proof.
  intros Hdb Hsrc fuel sched tgt0 file0. unfold migrate_redis_keys. rewrite Hdb.
  destruct (scan_loop_never_ends fuel (λ st c _, Hsrc c)
              (start_state cfg total_keys tgt0)) as [st' Hloop].
  fold (start_state cfg total_keys tgt0). by rewrite Hloop.
Qed.

End Accounted.

(** ** Every run, on concrete runs *)

Lemma X1_target_frame_witness :
  migrate_redis_keys Outage.src_scan_error accept_all Outage.cfg plain_env 5 0
    Outage.tgt_used Outage.old_manifest = Some Outage.failed
  ∧ target (run_state Outage.failed) !! "old" = Outage.tgt_used !! "old"
  ∧ is_Some (target (run_state Outage.failed) !! "a").
Proof.
  split; [reflexivity|].
  destruct (X1_target_frame Outage.src_scan_error accept_all Outage.cfg plain_env 5 0
              Outage.tgt_used Outage.old_manifest Outage.failed eq_refl)
    as [Hother Hkept].
  split.
  - apply Hother. intros Hin%list_elem_of_In. cbn in Hin.
    destruct Hin as [Hin|[]]. discriminate Hin.
  - apply Hkept. exists ("stale", 5000). reflexivity.
Defined.

Lemma X2_transferred_content_witness :
  migrate_redis_keys Outage.src_scan_error accept_all Outage.cfg plain_env 5 0
    Outage.tgt_used Outage.old_manifest = Some Outage.failed
  ∧ RestoreCmd "a" 60000 (Some "dump:a") true ∈ restored (trace (run_state Outage.failed))
  ∧ ∃ v t,
      src_dump Outage.src_scan_error "a" = Ok (Some v)
      ∧ src_ttl Outage.src_scan_error "a" = Ok t
      ∧ target (run_state Outage.failed) !! "a" = Some (v, normalize_ttl t).
Proof.
  assert (Hin : RestoreCmd "a" 60000 (Some "dump:a") true
                ∈ restored (trace (run_state Outage.failed))).
  { vm_compute. apply list_elem_of_here. }
  split; [reflexivity|]. split; [exact Hin|].
  exact (X2_transferred_content Outage.src_scan_error accept_all Outage.cfg plain_env 5 0
           Outage.tgt_used Outage.old_manifest Outage.failed
           (RestoreCmd "a" 60000 (Some "dump:a") true) eq_refl Hin).
Defined.

Lemma X3_sent_commands_witness :
  migrate_redis_keys Outage.src_scan_error accept_all Outage.cfg plain_env 5 0
    Outage.tgt_used Outage.old_manifest = Some Outage.failed
  ∧ EvRestore (RestoreCmd "a" 60000 (Some "dump:a") true) None
    ∈ trace (run_state Outage.failed)
  ∧ ∃ usage v t,
      src_memory_usage Outage.src_scan_error "a" = Ok usage
      ∧ or_zero usage ≤ size_limit Outage.cfg
      ∧ src_dump Outage.src_scan_error "a" = Ok (Some v)
      ∧ src_ttl Outage.src_scan_error "a" = Ok t
      ∧ RestoreCmd "a" 60000 (Some "dump:a") true
        = RestoreCmd "a" (normalize_ttl t) (Some v) true
      ∧ None = accept_all (RestoreCmd "a" 60000 (Some "dump:a") true).
Proof.
  assert (Hin : EvRestore (RestoreCmd "a" 60000 (Some "dump:a") true) None
                ∈ trace (run_state Outage.failed)).
  { cbn. do 4 apply list_elem_of_further. apply list_elem_of_here. }
  split; [reflexivity|]. split; [exact Hin|].
  exact (X3_sent_commands Outage.src_scan_error accept_all Outage.cfg plain_env 5 0
           Outage.tgt_used Outage.old_manifest Outage.failed
           (RestoreCmd "a" 60000 (Some "dump:a") true) None eq_refl Hin).
Defined.

Lemma X4_logged_failures_are_real_witness :
  migrate_redis_keys Faulty.src_size_timeout accept_all Faulty.cfg plain_env 1 0 ∅ []
  = Some Outage.skipped
  ∧ EvPrint (MsgErrorMigrating "a" Faulty.timeout) ∈ trace (run_state Outage.skipped)
  ∧ raises_in_try Faulty.src_size_timeout Faulty.cfg "a" Faulty.timeout
  ∧ decode "a" = Ok "a".
Proof.
  assert (Hin : EvPrint (MsgErrorMigrating "a" Faulty.timeout)
                ∈ trace (run_state Outage.skipped)).
  { cbn. do 4 apply list_elem_of_further. apply list_elem_of_here. }
  split; [reflexivity|]. split; [exact Hin|].
  exact (X4_logged_failures_are_real Faulty.src_size_timeout accept_all Faulty.cfg plain_env
           1 0 ∅ [] Outage.skipped "a" Faulty.timeout eq_refl Hin).
Defined.

Lemma X5_deferred_entries_sized_witness :
  migrate_redis_keys Outage.src_scan_error accept_all Outage.cfg plain_env 5 0
    Outage.tgt_used Outage.old_manifest = Some Outage.failed
  ∧ LargeKey "b" (20 * MB) ∈ large_keys (run_state Outage.failed)
  ∧ ∃ usage,
      src_memory_usage Outage.src_scan_error "b" = Ok usage
      ∧ 20 * MB = or_zero usage
      ∧ size_limit Outage.cfg < 20 * MB.
Proof.
  assert (Hin : LargeKey "b" (20 * MB) ∈ large_keys (run_state Outage.failed))
    by apply list_elem_of_here.
  split; [reflexivity|]. split; [exact Hin|].
  exact (X5_deferred_entries_sized Outage.src_scan_error accept_all Outage.cfg plain_env 5 0
           Outage.tgt_used Outage.old_manifest Outage.failed
           (LargeKey "b" (20 * MB)) eq_refl Hin).
Defined.

Lemma X6_deferred_keys_untouched_witness :
  migrate_redis_keys Outage.src_scan_error accept_all Outage.cfg plain_env 5 0
    Outage.tgt_used Outage.old_manifest = Some Outage.failed
  ∧ LargeKey "b" (20 * MB) ∈ large_keys (run_state Outage.failed)
  ∧ (∀ c reply, EvRestore c reply ∈ trace (run_state Outage.failed) →
                rc_name c ≠ "b")
  ∧ target (run_state Outage.failed) !! "b" = Outage.tgt_used !! "b".
Proof.
  assert (Hin : LargeKey "b" (20 * MB) ∈ large_keys (run_state Outage.failed))
    by apply list_elem_of_here.
  split; [reflexivity|]. split; [exact Hin|].
  exact (X6_deferred_keys_untouched Outage.src_scan_error accept_all Outage.cfg plain_env 5 0
           Outage.tgt_used Outage.old_manifest Outage.failed
           (LargeKey "b" (20 * MB)) eq_refl Hin).
Defined.

Lemma X7_failed_run_skips_deferred_pass_witness :
  migrate_redis_keys Outage.src_scan_error accept_all Outage.cfg plain_env 5 0
    Outage.tgt_used Outage.old_manifest = Some Outage.failed
  ∧ run_status Outage.failed = Failed Outage.lost
  ∧ run_file Outage.failed = Outage.old_manifest
  ∧ last (trace (run_state Outage.failed))
    = Some (EvPrint (handler_msg Outage.lost))
  ∧ Forall (λ ev, thread_event ev = false ∧ ev ≠ EvStart ∧ ev ≠ EvJoin
                  ∧ ev ≠ EvPrint MsgCompleted)
           (trace (run_state Outage.failed)).
Proof.
  split; [reflexivity|]. split; [reflexivity|].
  exact (X7_failed_run_skips_deferred_pass Outage.src_scan_error accept_all
           Outage.cfg plain_env 5 0 Outage.tgt_used Outage.old_manifest Outage.failed
           Outage.lost eq_refl eq_refl).
Defined.

Lemma X8_schedule_changes_order_only_witness :
  migrate_redis_keys Scenario.src accept_all Scenario.cfg plain_env 1 2 ∅ [] = Some Scenario.final
  ∧ ∃ r', migrate_redis_keys Scenario.src accept_all Scenario.cfg plain_env 1 0 ∅ [] = Some r'
    ∧ run_status r' = run_status Scenario.final
    ∧ target (run_state r') = target (run_state Scenario.final)
    ∧ large_keys (run_state r') = large_keys (run_state Scenario.final)
    ∧ pbar (run_state r') = pbar (run_state Scenario.final)
    ∧ run_file r' = run_file Scenario.final
    ∧ trace (run_state r') ≡ₚ trace (run_state Scenario.final).
Proof.
  split; [reflexivity|].
  exact (X8_schedule_changes_order_only Scenario.src accept_all Scenario.cfg plain_env 1 2 0
           ∅ [] Scenario.final eq_refl).
Defined.


Lemma X10_enumeration_order_kept_witness :
  migrate_redis_keys Scenario.src accept_all Scenario.cfg plain_env 1 2 ∅ [] = Some Scenario.final
  ∧ run_status Scenario.final = Done
  ∧ (rc_name <$> restored (trace (run_state Scenario.final)))
      `sublist_of` enumerated (trace (run_state Scenario.final))
  ∧ (lk_name <$> large_keys (run_state Scenario.final))
      `sublist_of` enumerated (trace (run_state Scenario.final))
  ∧ (fst <$> failures (trace (run_state Scenario.final)))
      `sublist_of` enumerated (trace (run_state Scenario.final)).
Proof.
  split; [reflexivity|]. split; [reflexivity|].
  exact (X10_enumeration_order_kept Scenario.src accept_all Scenario.cfg plain_env 1 2 ∅ []
           Scenario.final eq_refl eq_refl).
Defined.

Lemma X11_empty_batch_ends_scan_witness :
  src_dbsize Outage.src_gap = Ok 2
  ∧ loop_walk Outage.src_gap Outage.cfg 5 0 = Some ([(1, ["a"])], EndEmpty 2)
  ∧ forallb (clean Outage.src_gap accept_all Outage.cfg) (all_keys [(1, ["a"])]) = true
  ∧ (length [(1, ["a"])] < 5)%nat
  ∧ ∃ r, migrate_redis_keys Outage.src_gap accept_all Outage.cfg plain_env 5 0 ∅ [] = Some r
    ∧ run_status r = Done
    ∧ cursor (run_state r) = 2
    ∧ scans (trace (run_state r)) = chain 0 ([(1, ["a"])] ++ [(2, [])])
    ∧ enumerated (trace (run_state r)) = all_keys [(1, ["a"])]
    ∧ restored (trace (run_state r))
      = transfers_of Outage.src_gap Outage.cfg (all_keys [(1, ["a"])])
    ∧ large_keys (run_state r)
      = deferred_of Outage.src_gap Outage.cfg (all_keys [(1, ["a"])]).
Proof.
  assert (Hlen : (length [(1, ["a"])] < 5)%nat) by (simpl; lia).
  split; [reflexivity|]. split; [reflexivity|]. split; [reflexivity|].
  split; [exact Hlen|].
  exact (X11_empty_batch_ends_scan Outage.src_gap accept_all Outage.cfg plain_env 5
           [(1, ["a"])] 2 2 5 0 ∅ [] eq_refl eq_refl eq_refl Hlen).
Defined.

Lemma X12_scan_failure_keeps_earlier_batches_witness :
  src_dbsize Outage.src_scan_error = Ok 4
  ∧ loop_walk Outage.src_scan_error Outage.cfg 5 0
    = Some ([(1, ["a"; "b"])], EndError Outage.lost)
  ∧ forallb (clean Outage.src_scan_error accept_all Outage.cfg)
      (all_keys [(1, ["a"; "b"])]) = true
  ∧ (length [(1, ["a"; "b"])] < 5)%nat
  ∧ ∃ r, migrate_redis_keys Outage.src_scan_error accept_all Outage.cfg plain_env 5 0
           Outage.tgt_used Outage.old_manifest = Some r
    ∧ run_status r = Failed Outage.lost
    ∧ target (run_state r)
      = apply_writes
          (omap write_of
             (transfers_of Outage.src_scan_error Outage.cfg (all_keys [(1, ["a"; "b"])])))
          Outage.tgt_used
    ∧ restored (trace (run_state r))
      = transfers_of Outage.src_scan_error Outage.cfg (all_keys [(1, ["a"; "b"])])
    ∧ large_keys (run_state r)
      = deferred_of Outage.src_scan_error Outage.cfg (all_keys [(1, ["a"; "b"])])
    ∧ pbar (run_state r) = length (all_keys [(1, ["a"; "b"])])
    ∧ run_file r = Outage.old_manifest.
Proof.
  assert (Hlen : (length [(1, ["a"; "b"])] < 5)%nat) by (simpl; lia).
  split; [reflexivity|]. split; [reflexivity|]. split; [reflexivity|].
  split; [exact Hlen|].
  exact (X12_scan_failure_keeps_earlier_batches Outage.src_scan_error accept_all
           Outage.cfg plain_env 5 [(1, ["a"; "b"])] Outage.lost 4 5 0 Outage.tgt_used
           Outage.old_manifest eq_refl eq_refl eq_refl Hlen).
Defined.

Lemma X13_undecodable_failure_drops_batch_witness :
  src_scan Faulty.src_binary (cursor empty_state) (batch_size Faulty.cfg)
  = Ok (1, ["a"; String "255"%char ""])
  ∧ String "255"%char "" ∈ ["a"; String "255"%char ""]
  ∧ raises_in_try Faulty.src_binary Faulty.cfg (String "255"%char "") Faulty.timeout
  ∧ decode (String "255"%char "") = Raise UnicodeDecodeError
  ∧ ∃ st', scan_loop Faulty.src_binary accept_all Faulty.cfg plain_env 1 empty_state
           = Raised UnicodeDecodeError st'
    ∧ sent (trace st') = sent (trace empty_state)
    ∧ target st' = target empty_state
    ∧ pbar st' = pbar empty_state.
Proof.
  assert (Hin : String "255"%char "" ∈ ["a"; String "255"%char ""]).
  { apply list_elem_of_further, list_elem_of_here. }
  assert (Hr : raises_in_try Faulty.src_binary Faulty.cfg (String "255"%char "")
                 Faulty.timeout).
  { right. exists (Some MB). split; [done|]. split; [by vm_compute|by left]. }
  split; [reflexivity|]. split; [exact Hin|]. split; [exact Hr|].
  split; [reflexivity|].
  exact (X13_undecodable_failure_drops_batch Faulty.src_binary accept_all Faulty.cfg plain_env
           0 empty_state 1 ["a"; String "255"%char ""] (String "255"%char "")
           Faulty.timeout eq_refl Hin Hr eq_refl).
Defined.

Lemma X14_refused_write_ends_run_after_batch_witness :
  src_scan Faulty.src_two (cursor empty_state) (batch_size Faulty.cfg)
  = Ok (1, ["a"; "b"])
  ∧ Forall (λ k, crashes Faulty.src_two Faulty.cfg k = false) ["a"; "b"]
  ∧ forallb has_value (transfers_of Faulty.src_two Faulty.cfg ["a"; "b"]) = true
  ∧ transfers_of Faulty.src_two Faulty.cfg ["a"; "b"]
    = [] ++ RestoreCmd "a" 60000 (Some "dump:a") true
         :: [RestoreCmd "b" 60000 (Some "dump:b") true]
  ∧ Faulty.rejects_a (RestoreCmd "a" 60000 (Some "dump:a") true)
    = Some Faulty.bad_payload
  ∧ Faulty.denies_a (RestoreCmd "a" 60000 (Some "dump:a") true)
    = Some Faulty.no_permission
  ∧ (∃ st', scan_loop Faulty.src_two Faulty.rejects_a Faulty.cfg plain_env 1 empty_state
            = Raised Faulty.refused_a st'
      ∧ sent (trace st')
        = [RestoreCmd "a" 60000 (Some "dump:a") true;
           RestoreCmd "b" 60000 (Some "dump:b") true]
      ∧ restored (trace st') = [RestoreCmd "b" 60000 (Some "dump:b") true]
      ∧ target st' = {["b" := ("dump:b", 60000)]}
      ∧ pbar st' = 0%nat)
  ∧ (∃ st', scan_loop Faulty.src_two Faulty.denies_a Faulty.cfg Faulty.env_acl 1
              empty_state
            = Raised Faulty.denied_a st'
      ∧ EvRestore (RestoreCmd "a" 60000 (Some "dump:a") true) (Some Faulty.no_permission)
        ∈ trace st'
      ∧ restored (trace st') = []
      ∧ target st' = ∅
      ∧ pbar st' = 0%nat).
Proof.
  assert (Hcr : Forall (λ k, crashes Faulty.src_two Faulty.cfg k = false) ["a"; "b"])
    by (by repeat constructor).
  split; [reflexivity|]. split; [exact Hcr|]. split; [reflexivity|].
  split; [reflexivity|]. split; [reflexivity|]. split; [reflexivity|]. split.
  - destruct (X14_refused_write_ends_run_after_batch Faulty.src_two Faulty.rejects_a
                Faulty.cfg plain_env 0 empty_state 1 ["a"; "b"] []
                [RestoreCmd "b" 60000 (Some "dump:b") true]
                (RestoreCmd "a" 60000 (Some "dump:a") true) Faulty.bad_payload
                eq_refl Hcr eq_refl eq_refl eq_refl) as [Hran _].
    exact (Hran eq_refl (proj2 (Forall_nil _) I)).
  - destruct (X14_refused_write_ends_run_after_batch Faulty.src_two Faulty.denies_a
                Faulty.cfg Faulty.env_acl 0 empty_state 1 ["a"; "b"] []
                [RestoreCmd "b" 60000 (Some "dump:b") true]
                (RestoreCmd "a" 60000 (Some "dump:a") true) Faulty.no_permission
                eq_refl Hcr eq_refl eq_refl eq_refl) as [_ Haborted].
    exact (Haborted eq_refl (proj2 (Forall_nil _) I)).
Defined.

Lemma X15_vanished_key_ends_run_witness :
  src_scan Outage.src_vanished (cursor empty_state) (batch_size Outage.cfg)
  = Ok (0, ["a"; "b"; "z"])
  ∧ Forall (λ k, crashes Outage.src_vanished Outage.cfg k = false) ["a"; "b"; "z"]
  ∧ "a" ∈ ["a"; "b"; "z"]
  ∧ src_memory_usage Outage.src_vanished "a" = Ok None
  ∧ or_zero None ≤ size_limit Outage.cfg
  ∧ src_dump Outage.src_vanished "a" = Ok None
  ∧ src_ttl Outage.src_vanished "a" = Ok (-2)
  ∧ ∃ st', scan_loop Outage.src_vanished accept_all Outage.cfg plain_env 1 empty_state
           = Raised data_error st'
    ∧ sent (trace st') = sent (trace empty_state)
    ∧ target st' = target empty_state
    ∧ pbar st' = pbar empty_state.
Proof.
  assert (Hcr : Forall (λ k, crashes Outage.src_vanished Outage.cfg k = false)
                  ["a"; "b"; "z"]) by (by repeat constructor).
  assert (Hin : "a" ∈ ["a"; "b"; "z"]) by apply list_elem_of_here.
  assert (Hle : or_zero None ≤ size_limit Outage.cfg) by (by vm_compute).
  split; [reflexivity|]. split; [exact Hcr|]. split; [exact Hin|].
  split; [reflexivity|]. split; [exact Hle|]. split; [reflexivity|].
  split; [reflexivity|].
  exact (X15_vanished_key_ends_run Outage.src_vanished accept_all Outage.cfg plain_env 0
           empty_state 0 ["a"; "b"; "z"] "a" None (-2)
           eq_refl Hcr Hin eq_refl Hle eq_refl eq_refl).
Defined.

Lemma X16_zero_lifetime_reads_as_no_expiry_witness :
  src_memory_usage Outage.src_vanished "z" = Ok (Some MB)
  ∧ or_zero (Some MB) ≤ size_limit Outage.cfg
  ∧ src_dump Outage.src_vanished "z" = Ok (Some "dump:z")
  ∧ src_ttl Outage.src_vanished "z" = Ok 0
  ∧ migrate_key Outage.src_vanished Outage.cfg "z" empty_state []
    = Next (empty_state, [RestoreCmd "z" 0 (Some "dump:z") true]).
Proof.
  assert (Hle : or_zero (Some MB) ≤ size_limit Outage.cfg) by (by vm_compute).
  split; [reflexivity|]. split; [exact Hle|]. split; [reflexivity|].
  split; [reflexivity|].
  exact (proj1 (X16_zero_lifetime_reads_as_no_expiry Outage.src_vanished Outage.cfg
                  "z" empty_state [] (Some MB) (Some "dump:z")
                  eq_refl Hle eq_refl eq_refl)).
Defined.

Lemma X17_scan_relies_on_source_to_end_witness :
  src_dbsize Outage.src_cycle = Ok 1
  ∧ (∀ c, ∃ next keys,
       src_scan Outage.src_cycle c (batch_size Outage.cfg) = Ok (next, keys)
       ∧ next ≠ 0 ∧ keys ≠ []
       ∧ forallb (clean Outage.src_cycle accept_all Outage.cfg) keys = true)
  ∧ migrate_redis_keys Outage.src_cycle accept_all Outage.cfg plain_env 50 0 ∅ [] = None.
Proof.
  assert (Hsrc : ∀ c, ∃ next keys,
            src_scan Outage.src_cycle c (batch_size Outage.cfg) = Ok (next, keys)
            ∧ next ≠ 0 ∧ keys ≠ []
            ∧ forallb (clean Outage.src_cycle accept_all Outage.cfg) keys = true).
  { intros c. exists 1, ["a"]. by repeat split. }
  split; [reflexivity|]. split; [exact Hsrc|].
  exact (X17_scan_relies_on_source_to_end Outage.src_cycle accept_all Outage.cfg plain_env 1
           eq_refl Hsrc 50%nat 0%nat ∅ []).
Defined.
